(** * Position & Risk Engine of the stock risk calculator

    A shallow embedding of the calculation code shared by the Streamlit
    front ends of the repository, and the properties its specification
    states about it.

    Numbers.  The Python code computes on [float] and [int].  Python
    integers are unbounded and are embedded as [Z].  A finite float is
    embedded as the rational [Q] it denotes; equality of rationals is
    [Qeq] ([==]).  The modules [V1], [KPI], [V21], [Pro], [Sidebar] and
    [Themed] write each arithmetic operation as the exact one, which is
    the code up to the last bit of every real-valued figure.  Where a
    whole number is cut out of a quotient the last bit decides the
    result, and module [Fl] repeats those functions with the binary64
    rounding of every operation written out: through any rounding [fl],
    and through [Fl.fl64], the rounding to nearest of binary64 itself.
    The text fields of v2.1 also accept [inf] and [nan]; module [Ext]
    embeds its two tabs on all the floats, infinities and NaN included.

    Errors.  Float division by zero raises [ZeroDivisionError] in Python,
    arithmetic on [None] raises [TypeError], and [int()] raises
    [OverflowError] on an infinity and [ValueError] on NaN, so every
    function is embedded in the error monad [result]. *)

From Stdlib Require Import ZArith QArith Qround Qabs Qpower Bool String Lia Lqa.

Local Open Scope Q_scope.

(** ** Python numerics *)

Module Py.

Inductive exn : Type :=
| ZeroDivisionError
| TypeError
| OverflowError
| ValueError.

Inductive result (A : Type) : Type :=
| Ok (a : A)
| Raise (e : exn).

Arguments Ok {A} a.
Arguments Raise {A} e.

Definition bind {A B : Type} (r : result A) (k : A -> result B) : result B :=
  match r with
  | Ok a => k a
  | Raise e => Raise e
  end.

(** [x > y] and [x == y] on floats; [x <= y] is [Qle_bool x y]. *)
Definition gt (x y : Q) : bool := negb (Qle_bool x y).
Definition eqf (x y : Q) : bool := Qeq_bool x y.

(** [x / y] on floats. *)
Definition div (x y : Q) : result Q :=
  if eqf y 0 then Raise ZeroDivisionError else Ok (x / y).

(** [np.floor(x)]: the largest integral float not above [x]. *)
Definition np_floor (x : Q) : Q := inject_Z (Qfloor x).

(** [x // y] on floats. *)
Definition floordiv (x y : Q) : result Q :=
  if eqf y 0 then Raise ZeroDivisionError else Ok (np_floor (x / y)).

(** [int(x)]: truncation toward zero. *)
Definition int (x : Q) : Z := Z.quot (Qnum x) (Zpos (Qden x)).

(** Nearest integer, ties to the even one. *)
Definition round_half_even (x : Q) : Z :=
  let f := Qfloor x in
  match Qcompare (x - inject_Z f)%Q (1 # 2)%Q with
  | Lt => f
  | Gt => (f + 1)%Z
  | Eq => if Z.even f then f else (f + 1)%Z
  end.

(** [round(x, ndigits)] for [ndigits >= 0]. *)
Definition round (x : Q) (ndigits : nat) : Q :=
  let scale := inject_Z (10 ^ Z.of_nat ndigits) in
  inject_Z (round_half_even (x * scale)) / scale.

(** Truthiness of an optional float: [None] and [0.0] are falsy. *)
Definition truthy (x : option Q) : bool :=
  match x with
  | None => false
  | Some v => negb (eqf v 0)
  end.

(** Truthiness of an optional integer: [None] and [0] are falsy. *)
Definition truthy_int (n : option Z) : bool :=
  match n with
  | None => false
  | Some v => negb (v =? 0)%Z
  end.

(** Truthiness of a float that is always given: [0.0] is falsy. *)
Definition nonzero (x : Q) : bool := negb (eqf x 0).

(** [min] on integers. *)
Definition min (a b : Z) : Z := if (b <? a)%Z then b else a.

End Py.

Import Py.

Declare Scope py_scope.
Delimit Scope py_scope with py.
Notation "x <- c ;; k" := (bind c (fun x => k))
  (at level 61, c at next level, right associativity) : py_scope.
Local Open Scope py_scope.

(** ** Stock Risk Calculator Streamlit v1.0: helper functions and tabs

    The first program of [unnamed/part_000]. *)

Module V1.

(** [calc_shares_from_investment(total_investment, current_price)] *)
Definition calc_shares_from_investment (total_investment current_price : Q)
  : result Z :=
  if Qle_bool current_price 0 then Ok 0%Z
  else
    q <- floordiv total_investment current_price ;;
    Ok (int q).

(** [calc_shares_by_risk(max_risk, entry_price, stop_loss)] *)
Definition calc_shares_by_risk (max_risk entry_price stop_loss : Q)
  : result (Z * Q) :=
  let risk_per_share := entry_price - stop_loss in
  if Qle_bool risk_per_share 0 then Ok (0%Z, risk_per_share)
  else
    q <- div max_risk risk_per_share ;;
    let shares := int (np_floor q) in
    Ok (shares, risk_per_share).

(** The dictionary returned by [calc_metrics]. *)
Record Metrics : Type := mkMetrics {
  risk_per_share : Q;
  adj_risk_per_share : Q;
  profit_per_share : Q;
  adj_profit_per_share : Q;
  total_risk : Q;
  total_profit : Q;
  reward_risk_ratio : option Q
}.

(** [calc_metrics(entry_price, stop_loss, target_price, shares,
    commission=0.0, slippage=0.0)] *)
Definition calc_metrics (entry_price stop_loss target_price : Q) (shares : Z)
    (commission slippage : Q) : result Metrics :=
  let risk_per_share := entry_price - stop_loss in
  let profit_per_share := target_price - entry_price in
  let adj_risk_per_share := risk_per_share + commission + slippage in
  let adj_profit_per_share := profit_per_share - commission - slippage in
  let total_risk := adj_risk_per_share * inject_Z shares in
  let total_profit := adj_profit_per_share * inject_Z shares in
  reward_risk_ratio <-
    (if gt adj_risk_per_share 0 then
       q <- div adj_profit_per_share adj_risk_per_share ;;
       Ok (Some (round q 3))
     else Ok None) ;;
  Ok (mkMetrics risk_per_share adj_risk_per_share profit_per_share
        adj_profit_per_share total_risk total_profit reward_risk_ratio).

(** *** Tab 1: investment-based calculator *)

(** The values the widgets of tab 1 return. *)
Record Tab1Inputs : Type := mkTab1Inputs {
  stock_name : string;
  total_investment : Q;
  current_price : Q;
  commission : Q;
  slippage : Q;
  stop_loss : Q;
  target_price : Q;
  max_position_pct : Q
}.

(** The variables [shares], [required_investment] and [metrics] of the
    tab 1 script. *)
Record Tab1State : Type := mkTab1State {
  shares : Z;
  required_investment : Q;
  metrics : Metrics
}.

(** The block under [# Calculations]. *)
Definition tab1_calculations (i : Tab1Inputs) : result Tab1State :=
  shares <- calc_shares_from_investment (total_investment i) (current_price i) ;;
  let required_investment := inject_Z shares * current_price i in
  metrics <- calc_metrics (current_price i) (stop_loss i) (target_price i)
               shares (commission i) (slippage i) ;;
  Ok (mkTab1State shares required_investment metrics).

(** The block [if max_position_pct > 0: ...]: the portfolio-percent
    clamp.  The division by the literal [100.0] cannot raise. *)
Definition tab1_position_cap (i : Tab1Inputs) (s : Tab1State)
  : result Tab1State :=
  if gt (max_position_pct i) 0 then
    let cap_amount := (max_position_pct i / 100) * total_investment i in
    q <- div cap_amount (current_price i) ;;
    let allowed_shares := int (np_floor q) in
    if (shares s >? allowed_shares)%Z then
      let shares := allowed_shares in
      let required_investment := inject_Z shares * current_price i in
      metrics <- calc_metrics (current_price i) (stop_loss i) (target_price i)
                   shares (commission i) (slippage i) ;;
      Ok (mkTab1State shares required_investment metrics)
    else Ok s
  else Ok s.

(** The [summary] dictionary of tab 1. *)
Record Summary : Type := mkSummary {
  Date : string;
  Stock : string;
  Investment : Q;
  Current_Price : Q;
  Stop_Loss : Q;
  Target_Price : Q;
  Shares : Z;
  Commission : Q;
  Slippage : Q;
  Total_Risk : Q;
  Total_Profit : Q;
  Reward_Risk : option Q
}.

Definition tab1_summary (now : string) (i : Tab1Inputs) (s : Tab1State)
  : Summary :=
  mkSummary now (stock_name i) (total_investment i) (current_price i)
    (stop_loss i) (target_price i) (shares s) (commission i) (slippage i)
    (total_risk (metrics s)) (total_profit (metrics s))
    (reward_risk_ratio (metrics s)).

(** One run of the tab 1 script; [now] is what the clock returns. *)
Definition tab1 (now : string) (i : Tab1Inputs) : result Summary :=
  s0 <- tab1_calculations i ;;
  s1 <- tab1_position_cap i s0 ;;
  Ok (tab1_summary now i s1).

(** [st.session_state['last_trade']]. *)
Definition SessionState : Type := option Summary.

(** The button [Save values for use in Position Sizing tab]. *)
Definition save_last_trade (summary : Summary) (st : SessionState)
  : SessionState := Some summary.

(** The [value=] defaults of the prefilled widgets of tab 1; commission,
    slippage and the portfolio cap are not prefilled and are passed as
    entered. *)
Definition tab1_prefill (st : SessionState)
    (commission slippage max_position_pct : Q) : Tab1Inputs :=
  match st with
  | Some last =>
      mkTab1Inputs (Stock last) (Investment last) (Current_Price last)
        commission slippage (Stop_Loss last) (Target_Price last)
        max_position_pct
  | None =>
      mkTab1Inputs "PSX:ABC" 50000 150 commission slippage 140 180
        max_position_pct
  end.

(** *** Tab 2: position sizing by risk limit *)

(** The radio [Specify max risk as:] with the number it comes with. *)
Inductive RiskInput : Type :=
| PKR_absolute (max_risk_pk : Q)
| Pct_of_capital (percent : Q).

Record Tab2Inputs : Type := mkTab2Inputs {
  entry_price2 : Q;
  stop_loss2 : Q;
  target2 : Q;
  capital2 : Q;
  risk_input : RiskInput
}.

Definition computed_max_risk (i : Tab2Inputs) : Q :=
  match risk_input i with
  | PKR_absolute max_risk_pk => max_risk_pk
  | Pct_of_capital percent => (percent / 100) * capital2 i
  end.

Record Tab2State : Type := mkTab2State {
  shares_by_risk : Z;
  raw_risk_per_share : Q;
  metrics2 : Metrics;
  required_investment2 : Q
}.

(** The block under [# Calculate shares by risk]. *)
Definition tab2_calculations (i : Tab2Inputs) : result Tab2State :=
  r <- calc_shares_by_risk (computed_max_risk i) (entry_price2 i) (stop_loss2 i) ;;
  let shares_by_risk := fst r in
  let raw_risk_per_share := snd r in
  metrics2 <- calc_metrics (entry_price2 i) (stop_loss2 i) (target2 i)
                shares_by_risk 0 0 ;;
  let required_investment2 := inject_Z shares_by_risk * entry_price2 i in
  Ok (mkTab2State shares_by_risk raw_risk_per_share metrics2
        required_investment2).

(** The button [Adjust shares to fit available capital]: the
    affordable-shares clamp. *)
Definition tab2_adjust_to_capital (i : Tab2Inputs) (s : Tab2State)
  : result Tab2State :=
  q <- div (capital2 i) (entry_price2 i) ;;
  let affordable_shares := int (np_floor q) in
  let shares_by_risk := min (shares_by_risk s) affordable_shares in
  metrics2 <- calc_metrics (entry_price2 i) (stop_loss2 i) (target2 i)
                shares_by_risk 0 0 ;;
  let required_investment2 := inject_Z shares_by_risk * entry_price2 i in
  Ok (mkTab2State shares_by_risk (raw_risk_per_share s) metrics2
        required_investment2).

(** *** Tab 2: what is shown beside the numbers *)

(** The message under [Checks & Guidance]. *)
Inductive Guidance : Type :=
| StopLossNotBelowEntry
| ZeroShares
| SizingComputed.

Definition tab2_guidance (s : Tab2State) : Guidance :=
  if Qle_bool (raw_risk_per_share s) 0 then StopLossNotBelowEntry
  else if (shares_by_risk s =? 0)%Z then ZeroShares
  else SizingComputed.

(** [affordable], the second bar of the position chart. *)
Definition tab2_chart_affordable (i : Tab2Inputs) : result Z :=
  if gt (entry_price2 i) 0 then
    q <- div (capital2 i) (entry_price2 i) ;;
    Ok (int (np_floor q))
  else Ok 0%Z.

End V1.

(** ** The dark-mode variant: fractional share counts

    The second program of [unnamed/part_000], buttons [Calculate]. *)

Module KPI.

Record Tab1Result : Type := mkTab1Result {
  shares : Q;
  risk_share : Q;
  total_risk : Q;
  profit : Q;
  rr : Q
}.

(** Tab 1, button [Calculate]; [None] is the warning
    [Please fill all fields]. *)
Definition tab1_calculate (entry_price target_price stop_loss investment : Q)
  : result (option Tab1Result) :=
  if gt entry_price 0 && gt stop_loss 0 && gt investment 0 then
    shares <- div investment entry_price ;;
    let risk_share := entry_price - stop_loss in
    let total_risk := risk_share * shares in
    let profit := (target_price - entry_price) * shares in
    rr <- (if gt total_risk 0 then div profit total_risk else Ok 0) ;;
    Ok (Some (mkTab1Result shares risk_share total_risk profit rr))
  else Ok None.

Record Tab2Result : Type := mkTab2Result {
  shares_allowed : Q;
  invest_req : Q;
  profit2 : Q;
  rr2 : Q
}.

Inductive Tab2Outcome : Type :=
| Results (r : Tab2Result)
| StopLossError
| FillAllInputs.

(** Tab 2, button [Calculate]. *)
Definition tab2_calculate (entry2 stop2 target2 max_risk : Q)
  : result Tab2Outcome :=
  if gt entry2 0 && gt stop2 0 && gt max_risk 0 then
    let risk_per_share := entry2 - stop2 in
    if Qle_bool risk_per_share 0 then Ok StopLossError
    else
      shares_allowed <- div max_risk risk_per_share ;;
      let invest_req := shares_allowed * entry2 in
      let profit := (target2 - entry2) * shares_allowed in
      rr <- (if gt max_risk 0 then div profit max_risk else Ok 0) ;;
      Ok (Results (mkTab2Result shares_allowed invest_req profit rr))
  else Ok FillAllInputs.

End KPI.

(** ** Stock Risk Calculator v2.1: inputs that may be missing

    [stock_risk_calculator_streamlit.py]; its inputs come from text
    fields through [to_float] and are [None] when blank or not a number.
    Here a given input is a finite number; module [Ext] below has the
    infinities and NaN as well. *)

Module V21.

(** Arithmetic and comparison on values that may be [None]; Python
    raises [TypeError] on [None]. *)
Definition div_opt (x y : option Q) : result Q :=
  match x, y with
  | Some a, Some b => div a b
  | _, _ => Raise TypeError
  end.

Definition sub_opt (x y : option Q) : result Q :=
  match x, y with
  | Some a, Some b => Ok (a - b)
  | _, _ => Raise TypeError
  end.

Definition le_opt (x : option Q) (y : Q) : result bool :=
  match x with
  | Some a => Ok (Qle_bool a y)
  | None => Raise TypeError
  end.

Definition mul_int_opt (n : option Z) (x : option Q) : result Q :=
  match n, x with
  | Some k, Some a => Ok (inject_Z k * a)
  | _, _ => Raise TypeError
  end.

(** [compute_reward_risk(profit_per_share, risk_per_share)] *)
Definition compute_reward_risk (profit_per_share risk_per_share : option Q)
  : result (option Q) :=
  match profit_per_share, risk_per_share with
  | Some p, Some r =>
      if eqf r 0 then Ok None
      else
        q <- div p r ;;
        Ok (Some (round q 2))
  | _, _ => Ok None
  end.

(** [safe_shares_from_investment(total_investment, entry_price)] *)
Definition safe_shares_from_investment (total_investment entry_price : option Q)
  : result (option Z) :=
  if negb (truthy total_investment) || negb (truthy entry_price) then Ok None
  else
    nonpos <- le_opt entry_price 0 ;;
    if (nonpos : bool) then Ok None
    else
      q <- div_opt total_investment entry_price ;;
      Ok (Some (int (np_floor q))).

(** [safe_shares_by_risk(max_risk, entry_price, stop_loss)] *)
Definition safe_shares_by_risk (max_risk entry_price stop_loss : option Q)
  : result (option Z * option Q) :=
  if negb (truthy max_risk) || negb (truthy entry_price)
     || negb (truthy stop_loss)
  then Ok (None, None)
  else
    risk_per_share <- sub_opt entry_price stop_loss ;;
    if Qle_bool risk_per_share 0 then Ok (Some 0%Z, Some risk_per_share)
    else
      q <- div_opt max_risk (Some risk_per_share) ;;
      let shares := int (np_floor q) in
      Ok (Some shares, Some risk_per_share).

(** What tab 2 computes once [entry2 and stop2 and maxrisk] holds;
    [target2] may still be missing. *)
Record Tab2Result : Type := mkTab2Result {
  shares2 : option Z;
  risk_per_share2 : option Q;
  invest2 : option Q;
  profit_per_share2 : option Q;
  total_profit2 : option Q;
  rr_ratio2 : option Q
}.

Definition tab2_results (entry2 stop2 target2 maxrisk : option Q)
  : result (option Tab2Result) :=
  if truthy entry2 && truthy stop2 && truthy maxrisk then
    r <- safe_shares_by_risk maxrisk entry2 stop2 ;;
    let shares2 := fst r in
    let risk_per_share2 := snd r in
    invest2 <-
      (if truthy_int shares2 then
         v <- mul_int_opt shares2 entry2 ;; Ok (Some v)
       else Ok None) ;;
    profit_per_share2 <-
      (if truthy target2 && truthy entry2 then
         d <- sub_opt target2 entry2 ;; Ok (Some d)
       else Ok None) ;;
    total_profit2 <-
      (if truthy profit_per_share2 && truthy_int shares2 then
         v <- mul_int_opt shares2 profit_per_share2 ;; Ok (Some v)
       else Ok None) ;;
    rr_ratio2 <- compute_reward_risk profit_per_share2 risk_per_share2 ;;
    Ok (Some (mkTab2Result shares2 risk_per_share2 invest2
                profit_per_share2 total_profit2 rr_ratio2))
  else Ok None.

End V21.

(** ** The professional edition: long, sizing and short tabs

    The fourth program of [unnamed/part_000]; the third program has the
    same long and sizing tabs. *)

Module Pro.

Record TradeResult : Type := mkTradeResult {
  shares : Q;
  risk_per_share : Q;
  reward_per_share : Q;
  total_risk : Q;
  total_reward : Q;
  reward_risk_ratio : Q
}.

(** Tab 1, long trade; [None] when a field is still 0 and nothing is
    shown. *)
Definition tab1_long (total_investment entry_price stop_loss target_price : Q)
  : result (option TradeResult) :=
  if nonzero total_investment && nonzero entry_price && nonzero stop_loss
     && nonzero target_price
  then
    shares <-
      (if nonzero entry_price then div total_investment entry_price
       else Ok 0) ;;
    let risk_per_share := entry_price - stop_loss in
    let reward_per_share := target_price - entry_price in
    let total_risk := risk_per_share * shares in
    let total_reward := reward_per_share * shares in
    reward_risk_ratio <-
      (if negb (eqf total_risk 0) then div total_reward total_risk
       else Ok 0) ;;
    Ok (Some (mkTradeResult shares risk_per_share reward_per_share total_risk
                total_reward reward_risk_ratio))
  else Ok None.

(** Tab 3, short trade. *)
Definition tab3_short
    (total_investment_short entry_price_short stop_loss_short
       target_price_short : Q)
  : result (option TradeResult) :=
  if nonzero total_investment_short && nonzero entry_price_short
     && nonzero stop_loss_short && nonzero target_price_short
  then
    shares_short <-
      (if nonzero entry_price_short
       then div total_investment_short entry_price_short
       else Ok 0) ;;
    let risk_per_share_short := stop_loss_short - entry_price_short in
    let reward_per_share_short := entry_price_short - target_price_short in
    let total_risk_short := risk_per_share_short * shares_short in
    let total_reward_short := reward_per_share_short * shares_short in
    reward_risk_ratio_short <-
      (if negb (eqf total_risk_short 0)
       then div total_reward_short total_risk_short
       else Ok 0) ;;
    Ok (Some (mkTradeResult shares_short risk_per_share_short
                reward_per_share_short total_risk_short total_reward_short
                reward_risk_ratio_short))
  else Ok None.

Record SizingResult : Type := mkSizingResult {
  effective_risk : Q;
  risk_per_share2 : Q;
  shares_allowed : Q;
  potential_profit : Q;
  reward_risk_ratio2 : Q;
  shown : bool
}.

(** Tab 2, position sizing; the five values are computed on every run,
    [shown] is the condition under which they are displayed. *)
Definition tab2_sizing
    (max_risk_pkr capital risk_percent entry_price2 stop_loss2 target_price2 : Q)
  : result SizingResult :=
  let effective_risk :=
    if nonzero max_risk_pkr then max_risk_pkr
    else capital * (risk_percent / 100) in
  let risk_per_share2 :=
    if nonzero entry_price2 && nonzero stop_loss2
    then entry_price2 - stop_loss2 else 0 in
  shares_allowed <-
    (if gt risk_per_share2 0 then div effective_risk risk_per_share2
     else Ok 0) ;;
  let potential_profit :=
    if gt shares_allowed 0 then (target_price2 - entry_price2) * shares_allowed
    else 0 in
  reward_risk_ratio2 <-
    (if gt effective_risk 0 then div potential_profit effective_risk
     else Ok 0) ;;
  Ok (mkSizingResult effective_risk risk_per_share2 shares_allowed
        potential_profit reward_risk_ratio2
        (nonzero effective_risk && nonzero entry_price2 && nonzero stop_loss2)).

End Pro.

(** ** The sidebar edition: sizing from a risk percentage

    The fifth program of [unnamed/part_000], block [CALCULATIONS]. *)

Module Sidebar.

Record Results : Type := mkResults {
  risk_per_trade : Q;
  risk_per_share : Q;
  reward_per_share : Q;
  reward_risk_ratio : Q;
  shares : Q;
  total_risk : Q;
  potential_profit : Q
}.

Definition calculations
    (entry_price stop_loss target_price capital risk_percent : Q)
  : result Results :=
  let risk_per_trade := capital * (risk_percent / 100) in
  let risk_per_share := entry_price - stop_loss in
  let reward_per_share := target_price - entry_price in
  reward_risk_ratio <-
    (if gt risk_per_share 0 then div reward_per_share risk_per_share
     else Ok 0) ;;
  shares <-
    (if gt risk_per_share 0 then div risk_per_trade risk_per_share
     else Ok 0) ;;
  let total_risk := shares * risk_per_share in
  let potential_profit := shares * reward_per_share in
  Ok (mkResults risk_per_trade risk_per_share reward_per_share
        reward_risk_ratio shares total_risk potential_profit).

End Sidebar.

(** ** The light/dark themed variant

    The sixth program of [unnamed/part_000], buttons
    [Calculate Investment-Based Risk] and [Calculate Position Size]. *)

Module Themed.

Record Tab1Result : Type := mkTab1Result {
  num_shares : Q;
  risk_per_share : Q;
  total_risk : Q;
  potential_profit : Q;
  rr_ratio : Q
}.

(** [None] is the warning [Please fill all input fields before
    calculating]. *)
Definition tab1_calculate
    (entry_price target_price stop_loss investment_amount : Q)
  : result (option Tab1Result) :=
  if gt entry_price 0 && gt stop_loss 0 && gt investment_amount 0 then
    num_shares <- div investment_amount entry_price ;;
    let risk_per_share := entry_price - stop_loss in
    let total_risk := risk_per_share * num_shares in
    let potential_profit := (target_price - entry_price) * num_shares in
    rr_ratio <-
      (if negb (eqf total_risk 0) then div potential_profit total_risk
       else Ok 0) ;;
    Ok (Some (mkTab1Result num_shares risk_per_share total_risk
                potential_profit rr_ratio))
  else Ok None.

Record Tab2Result : Type := mkTab2Result {
  shares_allowed : Q;
  investment_required : Q;
  potential_profit2 : Q;
  rr_ratio2 : Q
}.

Inductive Tab2Outcome : Type :=
| Results (r : Tab2Result)
| StopLossError
| FillAllInputs.

Definition tab2_calculate (entry_price2 stop_loss2 target_price2 max_risk : Q)
  : result Tab2Outcome :=
  if gt entry_price2 0 && gt stop_loss2 0 && gt max_risk 0 then
    let risk_per_share := entry_price2 - stop_loss2 in
    if Qle_bool risk_per_share 0 then Ok StopLossError
    else
      shares_allowed <- div max_risk risk_per_share ;;
      let investment_required := shares_allowed * entry_price2 in
      let potential_profit := (target_price2 - entry_price2) * shares_allowed in
      rr_ratio <-
        (if negb (eqf max_risk 0) then div potential_profit max_risk
         else Ok 0) ;;
      Ok (Results (mkTab2Result shares_allowed investment_required
                     potential_profit rr_ratio))
  else Ok FillAllInputs.

End Themed.

(** ** The share counts with binary64 rounding written out

    A float operation returns the float nearest to the exact result.
    [fl64] is that rounding (ties to even, subnormals included, overflow
    left out); the functions below take the rounding as [fl]. *)

Module Fl.

(** The [e] with [2^e <= a < 2^(e+1)], for [a > 0]. *)
Definition ilog2 (a : Q) : Z :=
  let e := (Z.log2 (Qnum a) - Z.log2 (Zpos (Qden a)))%Z in
  if Qle_bool (2 ^ e) a then e else (e - 1)%Z.

(** The spacing of the floats around [a > 0] is [2^expo a]: 53 bits of
    precision, and [2^-1074] below the normal range. *)
Definition expo (a : Q) : Z := Z.max (ilog2 a - 52) (-1074).

Definition ulp (a : Q) : Q := 2 ^ expo a.

Definition nearest (a : Q) : Q :=
  Qred (inject_Z (round_half_even (a / ulp a)) * ulp a).

Definition fl64 (x : Q) : Q :=
  match Qcompare x 0 with
  | Eq => 0
  | Gt => nearest x
  | Lt => - nearest (- x)
  end.

Section Rounded.

Variable fl : Q -> Q.

(** [x / y] on floats. *)
Definition div (x y : Q) : result Q :=
  if eqf y 0 then Raise ZeroDivisionError else Ok (fl (x / y)).

Definition div_opt (x y : option Q) : result Q :=
  match x, y with
  | Some a, Some b => div a b
  | _, _ => Raise TypeError
  end.

Definition sub_opt (x y : option Q) : result Q :=
  match x, y with
  | Some a, Some b => Ok (fl (a - b))
  | _, _ => Raise TypeError
  end.

(** [calc_shares_by_risk(max_risk, entry_price, stop_loss)] of v1.0 *)
Definition calc_shares_by_risk (max_risk entry_price stop_loss : Q)
  : result (Z * Q) :=
  let risk_per_share := fl (entry_price - stop_loss) in
  if Qle_bool risk_per_share 0 then Ok (0%Z, risk_per_share)
  else
    q <- div max_risk risk_per_share ;;
    let shares := int (np_floor q) in
    Ok (shares, risk_per_share).

(** [safe_shares_from_investment(total_investment, entry_price)] of v2.1 *)
Definition safe_shares_from_investment (total_investment entry_price : option Q)
  : result (option Z) :=
  if negb (truthy total_investment) || negb (truthy entry_price) then Ok None
  else
    nonpos <- V21.le_opt entry_price 0 ;;
    if (nonpos : bool) then Ok None
    else
      q <- div_opt total_investment entry_price ;;
      Ok (Some (int (np_floor q))).

(** [safe_shares_by_risk(max_risk, entry_price, stop_loss)] of v2.1 *)
Definition safe_shares_by_risk (max_risk entry_price stop_loss : option Q)
  : result (option Z * option Q) :=
  if negb (truthy max_risk) || negb (truthy entry_price)
     || negb (truthy stop_loss)
  then Ok (None, None)
  else
    risk_per_share <- sub_opt entry_price stop_loss ;;
    if Qle_bool risk_per_share 0 then Ok (Some 0%Z, Some risk_per_share)
    else
      q <- div_opt max_risk (Some risk_per_share) ;;
      let shares := int (np_floor q) in
      Ok (Some shares, Some risk_per_share).

End Rounded.

End Fl.

(** What the theorems on [Fl] use of a rounding to nearest: it keeps the
    order, and it keeps the integers up to [2^53]. *)
Record Rounding (fl : Q -> Q) : Prop := mkRounding {
  fl_mono : forall x y, x <= y -> fl x <= fl y;
  fl_int : forall z : Z, (Z.abs z <= 2 ^ 53)%Z -> fl (inject_Z z) == inject_Z z
}.

(** ** v2.1 on every float [to_float] returns

    [to_float] hands the text of a field to [float()], which also reads
    [inf], [nan] and numerals out of range such as [1e999].  Here a float
    is a finite number, an infinity or NaN; an operation on finite floats
    rounds as binary64 does and overflows to an infinity; [int()] raises
    [OverflowError] on an infinity and [ValueError] on NaN.  The two zeros
    are one: the code tells them apart nowhere. *)

Module Ext.

Inductive float : Type :=
| Fin (q : Q)
| PInf
| NInf
| NaN.

(** The largest finite float, [(2^53 - 1) * 2^971]. *)
Definition max_float : Z := ((2 ^ 53 - 1) * 2 ^ 971)%Z.

(** The float an operation returns when the exact result is [q]: the
    nearest one, an infinity beyond [max_float]. *)
Definition rnd (q : Q) : float :=
  let r := Fl.fl64 q in
  if Qle_bool (Qabs r) (inject_Z max_float) then Fin r
  else if Qle_bool 0 r then PInf else NInf.

(** [x == 0], [x <= 0] and [x > 0]; every comparison with NaN is false. *)
Definition is_zero (x : float) : bool :=
  match x with
  | Fin q => eqf q 0
  | _ => false
  end.

Definition le_zero (x : float) : bool :=
  match x with
  | Fin q => Qle_bool q 0
  | NInf => true
  | _ => false
  end.

Definition positive (x : float) : bool :=
  match x with
  | Fin q => gt q 0
  | PInf => true
  | _ => false
  end.

Definition inf (pos : bool) : float := if pos then PInf else NInf.

Definition opp (x : float) : float :=
  match x with
  | Fin q => Fin (- q)
  | PInf => NInf
  | NInf => PInf
  | NaN => NaN
  end.

(** [x + y] *)
Definition add (x y : float) : float :=
  match x, y with
  | Fin a, Fin b => rnd (a + b)
  | NaN, _ | _, NaN => NaN
  | PInf, NInf | NInf, PInf => NaN
  | PInf, _ | _, PInf => PInf
  | NInf, _ | _, NInf => NInf
  end.

(** [x - y] *)
Definition sub (x y : float) : float := add x (opp y).

(** [x * y] *)
Definition mul (x y : float) : float :=
  match x, y with
  | Fin a, Fin b => rnd (a * b)
  | NaN, _ | _, NaN => NaN
  | _, _ =>
      if is_zero x || is_zero y then NaN
      else inf (Bool.eqb (positive x) (positive y))
  end.

(** [x / y]: Python raises on a zero divisor. *)
Definition div (x y : float) : result float :=
  if is_zero y then Raise ZeroDivisionError
  else
    Ok match x, y with
       | Fin a, Fin b => rnd (a / b)
       | NaN, _ | _, NaN => NaN
       | Fin _, _ => Fin 0
       | _, Fin _ => inf (Bool.eqb (positive x) (positive y))
       | _, _ => NaN
       end.

(** [np.floor(x)]; the floor of a finite float is a float. *)
Definition np_floor (x : float) : float :=
  match x with
  | Fin q => Fin (Py.np_floor q)
  | _ => x
  end.

(** [int(x)] *)
Definition int (x : float) : result Z :=
  match x with
  | Fin q => Ok (Py.int q)
  | NaN => Raise ValueError
  | _ => Raise OverflowError
  end.

(** [round(x, ndigits)]: an infinity or NaN is returned as it is. *)
Definition round (x : float) (ndigits : nat) : result float :=
  match x with
  | Fin q =>
      match rnd (Py.round q ndigits) with
      | Fin r => Ok (Fin r)
      | _ => Raise OverflowError
      end
  | _ => Ok x
  end.

(** The float of an integer, where an [int] meets a [float]. *)
Definition of_int (k : Z) : result float :=
  match rnd (inject_Z k) with
  | Fin r => Ok (Fin r)
  | _ => Raise OverflowError
  end.

(** Truthiness: [None] and [0.0] are falsy, NaN and the infinities are
    not. *)
Definition truthy (x : option float) : bool :=
  match x with
  | None => false
  | Some v => negb (is_zero v)
  end.

Definition sub_opt (x y : option float) : result float :=
  match x, y with
  | Some a, Some b => Ok (sub a b)
  | _, _ => Raise TypeError
  end.

Definition add_opt (x y : option float) : result float :=
  match x, y with
  | Some a, Some b => Ok (add a b)
  | _, _ => Raise TypeError
  end.

Definition div_opt (x y : option float) : result float :=
  match x, y with
  | Some a, Some b => div a b
  | _, _ => Raise TypeError
  end.

Definition le_opt (x : option float) : result bool :=
  match x with
  | Some a => Ok (le_zero a)
  | None => Raise TypeError
  end.

Definition mul_opt_int (x : option float) (n : option Z) : result float :=
  match x, n with
  | Some a, Some k => f <- of_int k ;; Ok (mul a f)
  | _, _ => Raise TypeError
  end.

Definition mul_int_opt (n : option Z) (x : option float) : result float :=
  match n, x with
  | Some k, Some a => f <- of_int k ;; Ok (mul f a)
  | _, _ => Raise TypeError
  end.

(** [compute_reward_risk(profit_per_share, risk_per_share)] *)
Definition compute_reward_risk (profit_per_share risk_per_share : option float)
  : result (option float) :=
  match profit_per_share, risk_per_share with
  | Some p, Some r =>
      if is_zero r then Ok None
      else
        q <- div p r ;;
        v <- round q 2 ;;
        Ok (Some v)
  | _, _ => Ok None
  end.

(** [safe_shares_from_investment(total_investment, entry_price)] *)
Definition safe_shares_from_investment
    (total_investment entry_price : option float) : result (option Z) :=
  if negb (truthy total_investment) || negb (truthy entry_price) then Ok None
  else
    nonpos <- le_opt entry_price ;;
    if (nonpos : bool) then Ok None
    else
      q <- div_opt total_investment entry_price ;;
      n <- int (np_floor q) ;;
      Ok (Some n).

(** [safe_shares_by_risk(max_risk, entry_price, stop_loss)] *)
Definition safe_shares_by_risk (max_risk entry_price stop_loss : option float)
  : result (option Z * option float) :=
  if negb (truthy max_risk) || negb (truthy entry_price)
     || negb (truthy stop_loss)
  then Ok (None, None)
  else
    risk_per_share <- sub_opt entry_price stop_loss ;;
    if le_zero risk_per_share then Ok (Some 0%Z, Some risk_per_share)
    else
      q <- div_opt max_risk (Some risk_per_share) ;;
      shares <- int (np_floor q) ;;
      Ok (Some shares, Some risk_per_share).

(** [comm or 0] *)
Definition or_zero (x : option float) : option float :=
  if truthy x then x else Some (Fin 0).

Record Tab1Result : Type := mkTab1Result {
  shares : option Z;
  risk_per_share : option float;
  profit_per_share : option float;
  adj_risk : option float;
  adj_profit : option float;
  total_risk : option float;
  total_profit : option float;
  rr_ratio : option float
}.

(** The computations of tab 1, on what [to_float] made of the five text
    fields. *)
Definition tab1_results (entry stop target invest comm : option float)
  : result Tab1Result :=
  shares <-
    (if truthy invest && truthy entry
     then safe_shares_from_investment invest entry
     else Ok None) ;;
  risk_per_share <-
    (if truthy entry && truthy stop then
       d <- sub_opt entry stop ;; Ok (Some d)
     else Ok None) ;;
  profit_per_share <-
    (if truthy target && truthy entry then
       d <- sub_opt target entry ;; Ok (Some d)
     else Ok None) ;;
  adj_risk <-
    (if truthy risk_per_share then
       v <- add_opt risk_per_share (or_zero comm) ;; Ok (Some v)
     else Ok None) ;;
  adj_profit <-
    (if truthy profit_per_share then
       v <- sub_opt profit_per_share (or_zero comm) ;; Ok (Some v)
     else Ok None) ;;
  total_risk <-
    (if truthy adj_risk && truthy_int shares then
       v <- mul_opt_int adj_risk shares ;; Ok (Some v)
     else Ok None) ;;
  total_profit <-
    (if truthy adj_profit && truthy_int shares then
       v <- mul_opt_int adj_profit shares ;; Ok (Some v)
     else Ok None) ;;
  rr_ratio <- compute_reward_risk adj_profit adj_risk ;;
  Ok (mkTab1Result shares risk_per_share profit_per_share adj_risk adj_profit
        total_risk total_profit rr_ratio).

Record Tab2Result : Type := mkTab2Result {
  shares2 : option Z;
  risk_per_share2 : option float;
  invest2 : option float;
  profit_per_share2 : option float;
  total_profit2 : option float;
  rr_ratio2 : option float
}.

Inductive RiskMode : Type :=
| PKR_absolute
| Pct_of_capital.

(** [if risk_mode == "% of capital" and capital2 and pct: maxrisk = ...] *)
Definition tab2_maxrisk (risk_mode : RiskMode)
    (maxrisk capital2 pct : option float) : result (option float) :=
  match risk_mode with
  | Pct_of_capital =>
      if truthy capital2 && truthy pct then
        match pct, capital2 with
        | Some p, Some c => q <- div p (Fin 100) ;; Ok (Some (mul q c))
        | _, _ => Raise TypeError
        end
      else Ok maxrisk
  | PKR_absolute => Ok maxrisk
  end.

(** What tab 2 computes under [if entry2 and stop2 and maxrisk]. *)
Definition tab2_results (entry2 stop2 target2 maxrisk : option float)
  : result (option Tab2Result) :=
  if truthy entry2 && truthy stop2 && truthy maxrisk then
    r <- safe_shares_by_risk maxrisk entry2 stop2 ;;
    let shares2 := fst r in
    let risk_per_share2 := snd r in
    invest2 <-
      (if truthy_int shares2 then
         v <- mul_int_opt shares2 entry2 ;; Ok (Some v)
       else Ok None) ;;
    profit_per_share2 <-
      (if truthy target2 && truthy entry2 then
         d <- sub_opt target2 entry2 ;; Ok (Some d)
       else Ok None) ;;
    total_profit2 <-
      (if truthy profit_per_share2 && truthy_int shares2 then
         v <- mul_opt_int profit_per_share2 shares2 ;; Ok (Some v)
       else Ok None) ;;
    rr_ratio2 <- compute_reward_risk profit_per_share2 risk_per_share2 ;;
    Ok (Some (mkTab2Result shares2 risk_per_share2 invest2
                profit_per_share2 total_profit2 rr_ratio2))
  else Ok None.

Definition tab2 (risk_mode : RiskMode)
    (entry2 stop2 target2 maxrisk capital2 pct : option float)
  : result (option Tab2Result) :=
  maxrisk <- tab2_maxrisk risk_mode maxrisk capital2 pct ;;
  tab2_results entry2 stop2 target2 maxrisk.

End Ext.

(** ** Predicates of the specification *)

(** The guard the specification asks of every ratio: defined exactly when
    the adjusted risk per share is strictly positive. *)
Definition ratio_guard (ratio : option Q) (adj_risk : Q) : Prop :=
  ratio <> None <-> 0 < adj_risk.

(** An optional input that is [None] or zero. *)
Definition missing_or_zero (x : option Q) : Prop :=
  match x with
  | None => True
  | Some v => v == 0
  end.

(** ** Basic facts on the numeric layer *)

Lemma gt_true_iff (x y : Q) : gt x y = true <-> y < x.
Proof.
  unfold gt. rewrite negb_true_iff. split.
  - intros H. apply Qnot_le_lt. intros Hle.
    apply Qle_bool_iff in Hle. congruence.
  - intros H. destruct (Qle_bool x y) eqn:E; [|reflexivity].
    apply Qle_bool_iff in E. exfalso. apply (Qlt_not_le _ _ H E).
Qed.

Lemma Qle_bool_false_iff (x y : Q) : Qle_bool x y = false <-> y < x.
Proof.
  rewrite <- gt_true_iff. unfold gt. now rewrite negb_true_iff.
Qed.

Lemma eqf_true_iff (x y : Q) : eqf x y = true <-> x == y.
Proof. apply Qeq_bool_iff. Qed.

Lemma eqf_false_iff (x y : Q) : eqf x y = false <-> ~ x == y.
Proof.
  unfold eqf. split.
  - intros H E. apply Qeq_bool_iff in E. congruence.
  - intros H. destruct (Qeq_bool x y) eqn:E; [|reflexivity].
    apply Qeq_bool_iff in E. contradiction.
Qed.

Lemma div_nonzero (x y : Q) : ~ y == 0 -> div x y = Ok (x / y).
Proof.
  intros H. unfold div. now rewrite (proj2 (eqf_false_iff y 0) H).
Qed.

Lemma floordiv_nonzero (x y : Q) :
  ~ y == 0 -> floordiv x y = Ok (np_floor (x / y)).
Proof.
  intros H. unfold floordiv. now rewrite (proj2 (eqf_false_iff y 0) H).
Qed.

(** [int] undoes the injection of an integer, so [int(np.floor(x))] is the
    floor of [x]. *)
Lemma int_inject_Z (z : Z) : int (inject_Z z) = z.
Proof. unfold int. simpl. apply Z.quot_1_r. Qed.

Lemma int_np_floor (x : Q) : int (np_floor x) = Qfloor x.
Proof. apply int_inject_Z. Qed.

(** On a non-negative number, truncation toward zero is the floor. *)
Lemma int_nonneg_floor (x : Q) : 0 <= x -> int x = Qfloor x.
Proof.
  destruct x as [n d]. unfold Qle, int, Qfloor. simpl. intros H.
  apply Z.quot_div_nonneg; lia.
Qed.

Lemma Qpos_nonzero (x : Q) : 0 < x -> ~ x == 0.
Proof. intros H E. rewrite E in H. now apply Qlt_irrefl in H. Qed.

Lemma Qdiv_nonneg (x y : Q) : 0 <= x -> 0 < y -> 0 <= x / y.
Proof.
  intros Hx Hy. apply Qle_shift_div_l; [exact Hy|]. now rewrite Qmult_0_l.
Qed.

Lemma Qdiv_le_mono (x y d : Q) : 0 < d -> x <= y -> x / d <= y / d.
Proof.
  intros Hd Hxy. unfold Qdiv. apply Qmult_le_compat_r; [exact Hxy|].
  apply Qlt_le_weak, Qinv_lt_0_compat, Hd.
Qed.

(** The floor of a quotient of a non-negative amount by a positive price:
    a non-negative count whose cost does not exceed the amount. *)
Lemma floor_div_bounds (t e : Q) :
  0 <= t -> 0 < e ->
  (0 <= Qfloor (t / e))%Z /\ inject_Z (Qfloor (t / e)) * e <= t.
Proof.
  intros Ht He. split.
  - change 0%Z with (Qfloor 0). apply Qfloor_resp_le, Qdiv_nonneg; assumption.
  - apply Qle_trans with ((t / e) * e).
    + apply Qmult_le_compat_r; [apply Qfloor_le | now apply Qlt_le_weak].
    + rewrite Qmult_comm, Qmult_div_r; [apply Qle_refl | now apply Qpos_nonzero].
Qed.

Lemma truthy_false_iff (x : option Q) : truthy x = false <-> missing_or_zero x.
Proof.
  destruct x as [v|]; cbn; [|easy].
  rewrite negb_false_iff. apply eqf_true_iff.
Qed.

Lemma truthy_Some (v : Q) : ~ v == 0 -> truthy (Some v) = true.
Proof.
  intros H. cbn. now rewrite (proj2 (eqf_false_iff v 0) H).
Qed.

(** ** The share-count functions, case by case *)

Lemma calc_shares_from_investment_nonpos (t e : Q) :
  e <= 0 -> V1.calc_shares_from_investment t e = Ok 0%Z.
Proof.
  intros H. unfold V1.calc_shares_from_investment.
  apply Qle_bool_iff in H. now rewrite H.
Qed.

Lemma calc_shares_from_investment_pos (t e : Q) :
  0 < e -> V1.calc_shares_from_investment t e = Ok (Qfloor (t / e)).
Proof.
  intros H. unfold V1.calc_shares_from_investment.
  rewrite (proj2 (Qle_bool_false_iff _ _) H).
  rewrite (floordiv_nonzero _ _ (Qpos_nonzero _ H)). cbn [bind].
  now rewrite int_np_floor.
Qed.

Lemma calc_shares_by_risk_nonpos (m e s : Q) :
  e - s <= 0 -> V1.calc_shares_by_risk m e s = Ok (0%Z, e - s).
Proof.
  intros H. unfold V1.calc_shares_by_risk.
  apply Qle_bool_iff in H. now rewrite H.
Qed.

Lemma calc_shares_by_risk_pos (m e s : Q) :
  0 < e - s ->
  V1.calc_shares_by_risk m e s = Ok (Qfloor (m / (e - s)), e - s).
Proof.
  intros H. unfold V1.calc_shares_by_risk.
  rewrite (proj2 (Qle_bool_false_iff _ _) H).
  rewrite (div_nonzero _ _ (Qpos_nonzero _ H)). cbn [bind].
  now rewrite int_np_floor.
Qed.

Lemma safe_shares_from_investment_pos (t e : Q) :
  ~ t == 0 -> 0 < e ->
  V21.safe_shares_from_investment (Some t) (Some e)
  = Ok (Some (Qfloor (t / e))).
Proof.
  intros Ht He. unfold V21.safe_shares_from_investment.
  rewrite (truthy_Some _ Ht), (truthy_Some _ (Qpos_nonzero _ He)).
  cbn [negb orb V21.le_opt bind].
  rewrite (proj2 (Qle_bool_false_iff _ _) He). cbn [V21.div_opt].
  rewrite (div_nonzero _ _ (Qpos_nonzero _ He)). cbn [bind].
  now rewrite int_np_floor.
Qed.

Lemma safe_shares_from_investment_falsy (t e : option Q) :
  missing_or_zero t \/ missing_or_zero e ->
  V21.safe_shares_from_investment t e = Ok None.
Proof.
  intros H. unfold V21.safe_shares_from_investment.
  destruct H as [H|H]; apply truthy_false_iff in H; rewrite H; cbn.
  - reflexivity.
  - now rewrite orb_true_r.
Qed.

Lemma safe_shares_from_investment_nonpos (t : option Q) (e : Q) :
  e <= 0 -> V21.safe_shares_from_investment t (Some e) = Ok None.
Proof.
  intros H. unfold V21.safe_shares_from_investment.
  destruct (negb (truthy t) || negb (truthy (Some e))); [reflexivity|].
  cbn [V21.le_opt bind]. apply Qle_bool_iff in H. now rewrite H.
Qed.

(** ** Facts on roundings *)

Lemma rounding_exact : Rounding (fun x => x).
Proof. split; intros; [assumption | reflexivity]. Qed.

Lemma rounding_nonneg (fl : Q -> Q) :
  Rounding fl -> forall x, 0 <= x -> 0 <= fl x.
Proof.
  intros R x H. apply Qle_trans with (fl (inject_Z 0)).
  - rewrite (fl_int fl R 0); [apply Qle_refl | discriminate].
  - now apply (fl_mono fl R).
Qed.

(** A quotient in the range of the exact integers moves, when rounded,
    at most onto the next integer. *)
Lemma rounded_floor_within (fl : Q -> Q) (q : Q) :
  Rounding fl -> 0 <= q -> q <= inject_Z (2 ^ 53 - 1) ->
  (Qfloor q <= Qfloor (fl q) <= Qfloor q + 1)%Z.
Proof.
  intros R H0 Hq.
  assert (K0 : (0 <= Qfloor q)%Z)
    by (change 0%Z with (Qfloor 0); now apply Qfloor_resp_le).
  assert (K1 : (Qfloor q <= 2 ^ 53 - 1)%Z).
  { rewrite <- (Qfloor_Z (2 ^ 53 - 1)). now apply Qfloor_resp_le. }
  split.
  - rewrite <- (Qfloor_Z (Qfloor q)) at 1. apply Qfloor_resp_le.
    rewrite <- (fl_int fl R (Qfloor q)) by lia.
    apply (fl_mono fl R), Qfloor_le.
  - rewrite <- (Qfloor_Z (Qfloor q + 1)). apply Qfloor_resp_le.
    rewrite <- (fl_int fl R (Qfloor q + 1)) by lia.
    apply (fl_mono fl R), Qlt_le_weak, Qlt_floor.
Qed.

Lemma round_half_even_bounds (x : Q) :
  (Qfloor x <= round_half_even x <= Qfloor x + 1)%Z.
Proof.
  unfold round_half_even.
  destruct (Qcompare _ _); [destruct (Z.even _)| |]; lia.
Qed.

Lemma round_half_even_mono (x y : Q) :
  x <= y -> (round_half_even x <= round_half_even y)%Z.
Proof.
  intros H. pose proof (Qfloor_resp_le _ _ H) as F.
  destruct (Z.eq_dec (Qfloor x) (Qfloor y)) as [E|N].
  - unfold round_half_even. rewrite <- E.
    destruct (Qcompare_spec (x - inject_Z (Qfloor x)) (1 # 2)) as [A|A|A];
      destruct (Qcompare_spec (y - inject_Z (Qfloor x)) (1 # 2)) as [B|B|B];
      try destruct (Z.even (Qfloor x)); try lia; exfalso; lra.
  - pose proof (round_half_even_bounds x).
    pose proof (round_half_even_bounds y). lia.
Qed.

Lemma round_half_even_comp (x y : Q) :
  x == y -> round_half_even x = round_half_even y.
Proof.
  intros E. apply Z.le_antisymm; apply round_half_even_mono; rewrite E;
    apply Qle_refl.
Qed.

Lemma round_half_even_Z (z : Z) : round_half_even (inject_Z z) = z.
Proof.
  unfold round_half_even. rewrite Qfloor_Z.
  destruct (Qcompare_spec (inject_Z z - inject_Z z) (1 # 2)) as [A|A|A];
    [exfalso; lra | reflexivity | exfalso; lra].
Qed.

Lemma round_half_even_nonneg (x : Q) : 0 <= x -> (0 <= round_half_even x)%Z.
Proof.
  intros H. rewrite <- (round_half_even_Z 0). now apply round_half_even_mono.
Qed.

Lemma two_pow_pos (e : Z) : 0 < 2 ^ e.
Proof. apply Qpower_0_lt. reflexivity. Qed.

Lemma two_pow_plus (n m : Z) : 2 ^ (n + m) == 2 ^ n * 2 ^ m.
Proof. apply Qpower_plus. discriminate. Qed.

Lemma two_pow_le (n m : Z) : (n <= m)%Z -> 2 ^ n <= 2 ^ m.
Proof. intros H. apply Qpower_le_compat_l; [exact H | discriminate]. Qed.

Lemma two_pow_Z (n : Z) : (0 <= n)%Z -> inject_Z (2 ^ n) == 2 ^ n.
Proof. intros H. now rewrite Zpower_Qpower. Qed.

(** [ilog2 a] is the binary exponent of [a]. *)
Lemma ilog2_spec (a : Q) :
  0 < a -> 2 ^ Fl.ilog2 a <= a /\ a < 2 ^ (Fl.ilog2 a + 1).
Proof.
  intros Ha. destruct a as [n d]. unfold Fl.ilog2. cbn [Qnum Qden].
  assert (Hn : (0 < n)%Z) by (unfold Qlt in Ha; cbn in Ha; lia).
  pose proof (Z.log2_spec n Hn) as [N0 N1].
  pose proof (Z.log2_spec (Zpos d) (Pos2Z.is_pos d)) as [D0 D1].
  pose proof (Z.log2_nonneg n) as Ln.
  pose proof (Z.log2_nonneg (Zpos d)) as Ld.
  set (ln := Z.log2 n) in *. set (ld := Z.log2 (Zpos d)) in *.
  assert (E : n # d == inject_Z n / inject_Z (Zpos d)) by apply Qmake_Qdiv.
  assert (Pd : 0 < inject_Z (Zpos d)) by reflexivity.
  assert (Lo : 2 ^ (ln - ld - 1) < n # d).
  { rewrite E. apply Qlt_shift_div_l; [exact Pd|].
    apply Qlt_le_trans with (2 ^ (ln - ld - 1) * 2 ^ (ld + 1)).
    - apply Qmult_lt_l; [apply two_pow_pos|].
      rewrite <- two_pow_Z by lia. rewrite <- Zlt_Qlt.
      replace (Z.succ ld) with (ld + 1)%Z in D1 by lia. exact D1.
    - rewrite <- two_pow_plus.
      replace (ln - ld - 1 + (ld + 1))%Z with ln by lia.
      rewrite <- two_pow_Z by lia. rewrite <- Zle_Qle. exact N0. }
  assert (Hi : n # d < 2 ^ (ln - ld + 1)).
  { rewrite E. apply Qlt_shift_div_r; [exact Pd|].
    apply Qlt_le_trans with (2 ^ (ln + 1)).
    - rewrite <- two_pow_Z by lia. rewrite <- Zlt_Qlt.
      replace (Z.succ ln) with (ln + 1)%Z in N1 by lia. exact N1.
    - replace (ln + 1)%Z with (ln - ld + 1 + ld)%Z at 1 by lia.
      rewrite two_pow_plus. apply Qmult_le_l; [apply two_pow_pos|].
      rewrite <- two_pow_Z by lia. rewrite <- Zle_Qle. exact D0. }
  destruct (Qle_bool (2 ^ (ln - ld)) (n # d)) eqn:B.
  - apply Qle_bool_iff in B. split; assumption.
  - assert (B' : n # d < 2 ^ (ln - ld)).
    { apply Qnot_le_lt. intros C. apply Qle_bool_iff in C. congruence. }
    split.
    + apply Qlt_le_weak. exact Lo.
    + replace (ln - ld - 1 + 1)%Z with (ln - ld)%Z by lia. exact B'.
Qed.

Lemma ilog2_mono (x y : Q) :
  0 < x -> x <= y -> (Fl.ilog2 x <= Fl.ilog2 y)%Z.
Proof.
  intros Hx H.
  destruct (ilog2_spec x Hx) as [A _].
  destruct (ilog2_spec y (Qlt_le_trans _ _ _ Hx H)) as [_ B].
  assert (C : 2 ^ Fl.ilog2 x < 2 ^ (Fl.ilog2 y + 1))
    by (eapply Qle_lt_trans; [exact A|]; eapply Qle_lt_trans; eassumption).
  apply Qpower_lt_compat_l_inv in C; [lia | reflexivity].
Qed.

Lemma ilog2_Z (z : Z) : (0 < z)%Z -> Fl.ilog2 (inject_Z z) = Z.log2 z.
Proof.
  intros H. unfold Fl.ilog2, inject_Z. cbn [Qnum Qden].
  change (Z.log2 1) with 0%Z. rewrite Z.sub_0_r.
  pose proof (Z.log2_spec z H) as [A _].
  pose proof (Z.log2_nonneg z) as L.
  assert (B : 2 ^ Z.log2 z <= z # 1).
  { change (z # 1) with (inject_Z z). rewrite <- two_pow_Z by exact L.
    now rewrite <- Zle_Qle. }
  apply Qle_bool_iff in B. now rewrite B.
Qed.

Lemma ulp_pos (a : Q) : 0 < Fl.ulp a.
Proof. apply two_pow_pos. Qed.

Lemma nearest_eq (a : Q) :
  Fl.nearest a
  == inject_Z (round_half_even (a / 2 ^ Fl.expo a)) * 2 ^ Fl.expo a.
Proof. unfold Fl.nearest. rewrite Qred_correct. reflexivity. Qed.

Lemma nearest_nonneg (a : Q) : 0 <= a -> 0 <= Fl.nearest a.
Proof.
  intros H. rewrite nearest_eq.
  apply Qmult_le_0_compat; [|apply Qlt_le_weak, two_pow_pos].
  change 0 with (inject_Z 0). rewrite <- Zle_Qle.
  apply round_half_even_nonneg.
  apply Qle_shift_div_l; [apply two_pow_pos | now rewrite Qmult_0_l].
Qed.

(** A rounded [x > 0] stays within its binade, ends included. *)
Lemma nearest_upper (x : Q) : 0 < x -> Fl.nearest x <= 2 ^ (Fl.expo x + 53).
Proof.
  intros Hx. rewrite nearest_eq. destruct (ilog2_spec x Hx) as [_ B].
  rewrite two_pow_plus, Qmult_comm.
  apply Qmult_le_l; [apply two_pow_pos|].
  rewrite <- (two_pow_Z 53) by lia. rewrite <- Zle_Qle.
  rewrite <- (round_half_even_Z (2 ^ 53)). apply round_half_even_mono.
  rewrite two_pow_Z by lia.
  apply Qle_shift_div_r; [apply two_pow_pos|]. rewrite <- two_pow_plus.
  apply Qlt_le_weak. eapply Qlt_le_trans; [exact B|].
  apply two_pow_le. unfold Fl.expo. lia.
Qed.

Lemma nearest_lower (y : Q) :
  0 < y -> Fl.expo y = (Fl.ilog2 y - 52)%Z ->
  2 ^ (Fl.expo y + 52) <= Fl.nearest y.
Proof.
  intros Hy E. rewrite nearest_eq. destruct (ilog2_spec y Hy) as [A _].
  rewrite two_pow_plus, Qmult_comm.
  apply Qmult_le_compat_r; [|apply Qlt_le_weak, two_pow_pos].
  rewrite <- (two_pow_Z 52) by lia. rewrite <- Zle_Qle.
  rewrite <- (round_half_even_Z (2 ^ 52)) at 1. apply round_half_even_mono.
  rewrite two_pow_Z by lia.
  apply Qle_shift_div_l; [apply two_pow_pos|]. rewrite <- two_pow_plus.
  eapply Qle_trans; [|exact A]. apply two_pow_le. lia.
Qed.

Lemma nearest_mono (x y : Q) :
  0 < x -> x <= y -> Fl.nearest x <= Fl.nearest y.
Proof.
  intros Hx H. pose proof (Qlt_le_trans _ _ _ Hx H) as Hy.
  pose proof (ilog2_mono x y Hx H) as L.
  destruct (Z.eq_dec (Fl.expo x) (Fl.expo y)) as [E|N].
  - rewrite !nearest_eq, E.
    apply Qmult_le_compat_r; [|apply Qlt_le_weak, two_pow_pos].
    rewrite <- Zle_Qle. apply round_half_even_mono.
    apply Qmult_le_compat_r; [exact H|].
    apply Qlt_le_weak, Qinv_lt_0_compat, two_pow_pos.
  - assert (Ey : Fl.expo y = (Fl.ilog2 y - 52)%Z)
      by (unfold Fl.expo in *; lia).
    eapply Qle_trans; [apply (nearest_upper x Hx)|].
    eapply Qle_trans; [|apply (nearest_lower y Hy Ey)].
    apply two_pow_le. unfold Fl.expo in *. lia.
Qed.

Lemma nearest_Z (z : Z) :
  (0 < z <= 2 ^ 53)%Z -> Fl.nearest (inject_Z z) == inject_Z z.
Proof.
  intros [P U]. rewrite nearest_eq. unfold Fl.expo. rewrite (ilog2_Z z P).
  pose proof (Z.log2_nonneg z) as L0.
  pose proof (Z.log2_spec z P) as [A B].
  assert (L1 : (Z.log2 z <= 53)%Z).
  { rewrite <- (Z.log2_pow2 53) by lia. now apply Z.log2_le_mono. }
  set (l := Z.log2 z) in *.
  replace (Z.max (l - 52) (-1074)) with (l - 52)%Z by lia.
  destruct (Z.eq_dec l 53) as [E|N].
  - assert (Ez : z = (2 ^ 53)%Z) by (rewrite E in A; lia).
    subst z. rewrite E. vm_compute. reflexivity.
  - assert (Q : inject_Z z / 2 ^ (l - 52) == inject_Z (z * 2 ^ (52 - l))).
    { rewrite inject_Z_mult, two_pow_Z by lia.
      replace (52 - l)%Z with (- (l - 52))%Z by lia.
      rewrite Qpower_opp. reflexivity. }
    rewrite (round_half_even_comp _ _ Q), round_half_even_Z.
    rewrite inject_Z_mult, two_pow_Z by lia.
    rewrite <- Qmult_assoc, <- two_pow_plus.
    replace (52 - l + (l - 52))%Z with 0%Z by lia.
    change (2 ^ 0) with 1. apply Qmult_1_r.
Qed.

(** The binary64 rounding keeps non-negative numbers non-negative. *)
Lemma fl64_nonneg (x : Q) : 0 <= x -> 0 <= Fl.fl64 x.
Proof.
  intros H. unfold Fl.fl64.
  destruct (Qcompare_spec x 0) as [E|L|G].
  - apply Qle_refl.
  - exfalso. apply (Qlt_not_le _ _ L H).
  - now apply nearest_nonneg.
Qed.

Lemma fl64_mono (x y : Q) : x <= y -> Fl.fl64 x <= Fl.fl64 y.
Proof.
  intros H. unfold Fl.fl64.
  destruct (Qcompare_spec x 0) as [Ex|Lx|Gx];
    destruct (Qcompare_spec y 0) as [Ey|Ly|Gy]; try (exfalso; lra).
  - apply Qle_refl.
  - apply nearest_nonneg. lra.
  - assert (0 <= Fl.nearest (- x)) by (apply nearest_nonneg; lra). lra.
  - assert (Fl.nearest (- y) <= Fl.nearest (- x))
      by (apply nearest_mono; lra). lra.
  - assert (0 <= Fl.nearest (- x)) by (apply nearest_nonneg; lra).
    assert (0 <= Fl.nearest y) by (apply nearest_nonneg; lra). lra.
  - now apply nearest_mono.
Qed.

Lemma fl64_Z (z : Z) :
  (Z.abs z <= 2 ^ 53)%Z -> Fl.fl64 (inject_Z z) == inject_Z z.
Proof.
  intros H. unfold Fl.fl64.
  destruct (Qcompare_spec (inject_Z z) 0) as [E|L|G].
  - symmetry. exact E.
  - change 0 with (inject_Z 0) in L. rewrite <- Zlt_Qlt in L.
    rewrite <- inject_Z_opp, nearest_Z by lia.
    rewrite inject_Z_opp. apply Qopp_involutive.
  - change 0 with (inject_Z 0) in G. rewrite <- Zlt_Qlt in G.
    apply nearest_Z. lia.
Qed.

(** The rounding of binary64 is a rounding in the sense of [Rounding]. *)
Lemma rounding_fl64 : Rounding Fl.fl64.
Proof. split; [exact fl64_mono | exact fl64_Z]. Qed.

Lemma fl_div_nonzero (fl : Q -> Q) (x y : Q) :
  ~ y == 0 -> Fl.div fl x y = Ok (fl (x / y)).
Proof.
  intros H. unfold Fl.div. now rewrite (proj2 (eqf_false_iff y 0) H).
Qed.

Lemma fl_calc_shares_by_risk_nonpos (fl : Q -> Q) (m e s : Q) :
  fl (e - s) <= 0 -> Fl.calc_shares_by_risk fl m e s = Ok (0%Z, fl (e - s)).
Proof.
  intros H. unfold Fl.calc_shares_by_risk.
  apply Qle_bool_iff in H. now rewrite H.
Qed.

Lemma fl_calc_shares_by_risk_pos (fl : Q -> Q) (m e s : Q) :
  0 < fl (e - s) ->
  Fl.calc_shares_by_risk fl m e s
  = Ok (Qfloor (fl (m / fl (e - s))), fl (e - s)).
Proof.
  intros H. unfold Fl.calc_shares_by_risk.
  rewrite (proj2 (Qle_bool_false_iff _ _) H).
  rewrite (fl_div_nonzero _ _ _ (Qpos_nonzero _ H)). cbn [bind].
  now rewrite int_np_floor.
Qed.

Lemma fl_safe_shares_from_investment_pos (fl : Q -> Q) (t e : Q) :
  ~ t == 0 -> 0 < e ->
  Fl.safe_shares_from_investment fl (Some t) (Some e)
  = Ok (Some (Qfloor (fl (t / e)))).
Proof.
  intros Ht He. unfold Fl.safe_shares_from_investment.
  rewrite (truthy_Some _ Ht), (truthy_Some _ (Qpos_nonzero _ He)).
  cbn [negb orb V21.le_opt bind].
  rewrite (proj2 (Qle_bool_false_iff _ _) He). cbn [Fl.div_opt].
  rewrite (fl_div_nonzero _ _ _ (Qpos_nonzero _ He)). cbn [bind].
  now rewrite int_np_floor.
Qed.

Lemma fl_safe_shares_from_investment_none (fl : Q -> Q) (t e : Q) :
  e <= 0 \/ t == 0 ->
  Fl.safe_shares_from_investment fl (Some t) (Some e) = Ok None.
Proof.
  intros H. unfold Fl.safe_shares_from_investment.
  destruct (negb (truthy (Some t)) || negb (truthy (Some e))) eqn:G;
    [reflexivity|].
  cbn [V21.le_opt bind]. destruct H as [H|H].
  - apply Qle_bool_iff in H. now rewrite H.
  - exfalso. apply orb_false_elim in G. destruct G as [G _].
    cbn in G. rewrite negb_involutive in G.
    apply eqf_false_iff in G. contradiction.
Qed.

(** With exact arithmetic for the rounding, [Fl] is the exact model. *)
Lemma fl_exact_is_exact (m e s : Q) (a b c : option Q) :
  Fl.calc_shares_by_risk (fun x => x) m e s = V1.calc_shares_by_risk m e s /\
  Fl.safe_shares_from_investment (fun x => x) a b
  = V21.safe_shares_from_investment a b /\
  Fl.safe_shares_by_risk (fun x => x) a b c = V21.safe_shares_by_risk a b c.
Proof.
  split; [reflexivity|]. split.
  - destruct a, b; reflexivity.
  - destruct a, b, c; reflexivity.
Qed.

(** ** The code on binary64, run *)

(** Entry 2.35, stop 1.55, limit 100: the difference is a little above
    0.8, the quotient a little below 125, and its rounding is 125. *)
Example shares_by_risk_rounds_up :
  exists r r',
    Fl.calc_shares_by_risk Fl.fl64 100 (Fl.fl64 2.35) (Fl.fl64 1.55)
    = Ok (125%Z, r) /\
    100 < inject_Z 125 * r /\
    V1.calc_shares_by_risk 100 (Fl.fl64 2.35) (Fl.fl64 1.55)
    = Ok (124%Z, r') /\
    r' == r.
Proof.
  do 2 eexists. split; [vm_compute; reflexivity|]. split; [reflexivity|].
  split; [vm_compute; reflexivity | reflexivity].
Qed.

Example shares_by_risk_short_of_decimal :
  exists r,
    Fl.calc_shares_by_risk Fl.fl64 1000 100 (Fl.fl64 99.8) = Ok (4999%Z, r) /\
    0.2 < r.
Proof. eexists. split; [vm_compute; reflexivity | reflexivity]. Qed.

(** Investing 1000 at 1.6: [//] gives 624, the floor of the rounded
    quotient 625, and 625 shares at that price cost more than 1000. *)
Example floor_division_against_floor_of_division :
  V1.calc_shares_from_investment 1000 (Fl.fl64 1.6) = Ok 624%Z /\
  Fl.safe_shares_from_investment Fl.fl64 (Some 1000) (Some (Fl.fl64 1.6))
  = Ok (Some 625%Z) /\
  1000 < inject_Z 625 * Fl.fl64 1.6 /\
  V1.calc_shares_from_investment 1000 (Fl.fl64 0.2) = Ok 4999%Z /\
  Fl.safe_shares_from_investment Fl.fl64 (Some 1000) (Some (Fl.fl64 0.2))
  = Ok (Some 5000%Z).
Proof. repeat split. Qed.

(** ** The defaults of the widgets, run *)

Example tab1_default_run :
  V1.tab1 "2025-01-01" (V1.tab1_prefill None 0 0 0)
  = Ok (V1.mkSummary "2025-01-01" "PSX:ABC" 50000 150 140 180 333 0 0
          3330 9990 (Some 3.000)).
Proof. reflexivity. Qed.

Example tab2_default_run :
  exists s,
    V1.tab2_calculations (V1.mkTab2Inputs 150 140 180 100000
                            (V1.PKR_absolute 5000)) = Ok s /\
    V1.shares_by_risk s = 500%Z /\
    V1.raw_risk_per_share s == 10 /\
    V1.required_investment2 s == 75000 /\
    V1.total_risk (V1.metrics2 s) == 5000.
Proof. eexists. split; [reflexivity|]. repeat split. Qed.

Example tab2_percent_run :
  exists s s',
    V1.tab2_calculations (V1.mkTab2Inputs 150 149 180 100000
                            (V1.Pct_of_capital 2)) = Ok s /\
    V1.shares_by_risk s = 2000%Z /\
    V1.tab2_adjust_to_capital (V1.mkTab2Inputs 150 149 180 100000
                                 (V1.Pct_of_capital 2)) s = Ok s' /\
    V1.shares_by_risk s' = 666%Z.
Proof. do 2 eexists. repeat split. Qed.

Example invalid_stop_run :
  V1.calc_shares_by_risk 5000 150 160 = Ok (0%Z, -10) /\
  V1.calc_shares_by_risk 0 150 140 = Ok (0%Z, 10).
Proof. split; reflexivity. Qed.

Example zero_price_cap_raises :
  V1.tab1 "2025-01-01" (V1.mkTab1Inputs "PSX:ABC" 50000 0 0 0 140 180 10)
  = Raise ZeroDivisionError.
Proof. reflexivity. Qed.

(** ** Risk-limit sizing *)



(** ** Trade metrics *)

(** [calc_metrics] never raises: its one division is guarded. *)
Lemma calc_metrics_eq (e s t : Q) (sh : Z) (c sl : Q) :
  V1.calc_metrics e s t sh c sl
  = Ok (V1.mkMetrics (e - s) (e - s + c + sl) (t - e) (t - e - c - sl)
          ((e - s + c + sl) * inject_Z sh) ((t - e - c - sl) * inject_Z sh)
          (if gt (e - s + c + sl) 0
           then Some (round ((t - e - c - sl) / (e - s + c + sl)) 3)
           else None)).
Proof.
  unfold V1.calc_metrics.
  destruct (gt (e - s + c + sl) 0) eqn:G; [|reflexivity].
  apply gt_true_iff in G.
  now rewrite (div_nonzero _ _ (Qpos_nonzero _ G)).
Qed.

(** C4: [calc_metrics] adds commission and slippage to the risk per share
    and subtracts them from the reward per share, and the totals are the
    adjusted per-share figures times the share count.  With entry 150,
    stop 140, target 180 and 500 shares: without costs the total risk is
    5000, the total profit 15000 and the ratio 3; with commission 1 and
    slippage 0.5 the adjusted reward is 28.5, the adjusted risk 11.5 and
    the ratio 2.478. *)
Theorem calc_metrics_spec (entry stop target : Q) (shares : Z)
    (commission slippage : Q) :
  0 <= commission -> 0 <= slippage ->
  (exists m,
     V1.calc_metrics entry stop target shares commission slippage = Ok m /\
     V1.risk_per_share m = entry - stop /\
     V1.profit_per_share m = target - entry /\
     V1.adj_risk_per_share m = V1.risk_per_share m + commission + slippage /\
     V1.adj_profit_per_share m
     = V1.profit_per_share m - commission - slippage /\
     V1.total_risk m = V1.adj_risk_per_share m * inject_Z shares /\
     V1.total_profit m = V1.adj_profit_per_share m * inject_Z shares) /\
  (exists m r,
     V1.calc_metrics 150 140 180 500 0 0 = Ok m /\
     V1.total_risk m == 5000 /\ V1.total_profit m == 15000 /\
     V1.reward_risk_ratio m = Some r /\ r == 3) /\
  (exists m r,
     V1.calc_metrics 150 140 180 500 1 (1 # 2) = Ok m /\
     V1.adj_profit_per_share m == 28.5 /\
     V1.adj_risk_per_share m == 11.5 /\
     V1.reward_risk_ratio m = Some r /\ r == 2.478).
Proof.
  intros _ _. split; [|split].
  - eexists. split; [apply calc_metrics_eq|]. cbn. repeat split.
  - do 2 eexists. split; [apply calc_metrics_eq|]. cbn.
    repeat split; reflexivity.
  - do 2 eexists. split; [apply calc_metrics_eq|]. cbn.
    repeat split; reflexivity.
Qed.

Lemma calc_metrics_spec_witness :
  exists m,
    V1.calc_metrics 151 140 180 33 (1 # 4) (1 # 10) = Ok m /\
    V1.adj_risk_per_share m = V1.risk_per_share m + (1 # 4) + (1 # 10) /\
    V1.total_risk m = V1.adj_risk_per_share m * inject_Z 33.
Proof.
  destruct (calc_metrics_spec 151 140 180 33 (1 # 4) (1 # 10))
    as [[m (E & _ & _ & A & _ & T & _)] _]; [discriminate | discriminate |].
  exists m. repeat split; assumption.
Defined.

(** C2, as amended: in [calc_metrics] the ratio is defined exactly when
    the adjusted risk per share is strictly positive, so no division by
    zero or by a negative number happens there.  [compute_reward_risk]
    never divides by zero either, but its guard is [risk_per_share == 0]:
    its ratio is defined exactly when both arguments are given and the
    risk per share is not zero, also for a negative risk per share. *)
Theorem ratio_defined_spec (entry stop target : Q) (shares : Z)
    (commission slippage : Q) (profit_per_share risk_per_share : option Q) :
  (exists m,
     V1.calc_metrics entry stop target shares commission slippage = Ok m /\
     ratio_guard (V1.reward_risk_ratio m) (V1.adj_risk_per_share m)) /\
  (exists ratio,
     V21.compute_reward_risk profit_per_share risk_per_share = Ok ratio /\
     (ratio <> None <->
      exists p r, profit_per_share = Some p /\ risk_per_share = Some r /\
                  ~ r == 0)).
Proof.
  split.
  - eexists. split; [apply calc_metrics_eq|]. cbn. unfold ratio_guard.
    destruct (gt (entry - stop + commission + slippage) 0) eqn:G.
    + apply gt_true_iff in G. split; [intros _; exact G | discriminate].
    + split; [easy|]. intros H. apply gt_true_iff in H. congruence.
  - unfold V21.compute_reward_risk.
    destruct profit_per_share as [p|], risk_per_share as [r|];
      try (eexists; split; [reflexivity|];
           split; [easy | intros (? & ? & ? & ? & _); discriminate]).
    destruct (eqf r 0) eqn:E.
    + apply eqf_true_iff in E. eexists. split; [reflexivity|].
      split; [easy|]. intros (p' & r' & _ & [= <-] & N). contradiction.
    + apply eqf_false_iff in E. rewrite (div_nonzero _ _ E). cbn.
      eexists. split; [reflexivity|].
      split; [|discriminate]. intros _. now exists p, r.
Qed.

Lemma ratio_defined_spec_witness :
  (exists m,
     V1.calc_metrics 150 160 180 500 0 0 = Ok m /\
     V1.reward_risk_ratio m = None) /\
  (exists ratio,
     V21.compute_reward_risk (Some 30) (Some 10) = Ok ratio /\ ratio <> None).
Proof.
  destruct (ratio_defined_spec 150 160 180 500 0 0 (Some 30) (Some 10))
    as [(m & E & G) (ratio & C & D)].
  split.
  - exists m. split; [exact E|].
    destruct (V1.reward_risk_ratio m) as [r|] eqn:R; [|reflexivity].
    exfalso. assert (L : 0 < V1.adj_risk_per_share m)
      by (apply G; discriminate).
    revert L. injection E as <-. discriminate.
  - exists ratio. split; [exact C|]. apply D.
    exists 30, 10. repeat split. discriminate.
Defined.

(** The claim C2 fails at [compute_reward_risk]: with a profit of 30 and a
    risk per share of -10 (stop above entry) the ratio is defined, and is
    the sign-flipped -3.  Tab 2 of v2.1 reaches it with entry 150, stop
    160, target 180 and a risk limit of 5000. *)
Lemma ratio_defined_counterexample :
  exists ratio,
    V21.compute_reward_risk (Some 30) (Some (-10)) = Ok (Some ratio) /\
    ratio == -3 /\
    ~ ratio_guard (Some ratio) (-10) /\
    exists r, V21.tab2_results (Some 150) (Some 160) (Some 180) (Some 5000)
              = Ok (Some r) /\
              V21.risk_per_share2 r = Some (-10) /\
              V21.rr_ratio2 r = Some ratio.
Proof.
  eexists. split; [vm_compute; reflexivity|]. split; [reflexivity|]. split.
  - unfold ratio_guard. intros [H _].
    assert (L : 0 < -10) by (apply H; discriminate). discriminate L.
  - eexists. split; [vm_compute; reflexivity|]. split; reflexivity.
Qed.

(** ** Capital sizing *)

(** C3, as amended: for every [total_investment >= 0] and
    [entry_price > 0], [calc_shares_from_investment] returns
    [floor(total_investment / entry_price)], a non-negative integer with
    [shares * entry_price <= total_investment], and for every
    [entry_price <= 0] it returns 0.  [safe_shares_from_investment]
    returns, when both inputs are positive, the floor of the quotient it
    computes, a non-negative integer, and returns [None], not 0, when
    [entry_price <= 0] or [total_investment] is 0. *)
Theorem shares_from_capital_spec (fl : Q -> Q)
    (total_investment entry_price : Q) :
  (forall x, 0 <= x -> 0 <= fl x) ->
  (0 <= total_investment -> 0 < entry_price ->
   V1.calc_shares_from_investment total_investment entry_price
   = Ok (Qfloor (total_investment / entry_price)) /\
   (0 <= Qfloor (total_investment / entry_price))%Z /\
   inject_Z (Qfloor (total_investment / entry_price)) * entry_price
   <= total_investment) /\
  (entry_price <= 0 ->
   V1.calc_shares_from_investment total_investment entry_price = Ok 0%Z) /\
  (0 < total_investment -> 0 < entry_price ->
   Fl.safe_shares_from_investment fl (Some total_investment)
     (Some entry_price)
   = Ok (Some (Qfloor (fl (total_investment / entry_price)))) /\
   (0 <= Qfloor (fl (total_investment / entry_price)%Q))%Z) /\
  (entry_price <= 0 \/ total_investment == 0 ->
   Fl.safe_shares_from_investment fl (Some total_investment)
     (Some entry_price)
   = Ok None).
Proof.
  intros Hfl. split; [|split; [|split]].
  - intros Ht He. split; [now apply calc_shares_from_investment_pos|].
    now apply floor_div_bounds.
  - apply calc_shares_from_investment_nonpos.
  - intros Ht He. split.
    + apply fl_safe_shares_from_investment_pos; [|exact He].
      now apply Qpos_nonzero.
    + change 0%Z with (Qfloor 0). apply Qfloor_resp_le, Hfl.
      apply Qdiv_nonneg; [now apply Qlt_le_weak | exact He].
  - apply fl_safe_shares_from_investment_none.
Qed.

Lemma shares_from_capital_spec_witness :
  (V1.calc_shares_from_investment 50000 151 = Ok 331%Z /\
   inject_Z 331 * 151 <= 50000) /\
  V1.calc_shares_from_investment 50000 (-3) = Ok 0%Z /\
  Fl.safe_shares_from_investment Fl.fl64 (Some 50000) (Some 151)
  = Ok (Some 331%Z) /\
  Fl.safe_shares_from_investment Fl.fl64 (Some 0) (Some 151) = Ok None.
Proof.
  destruct (shares_from_capital_spec Fl.fl64 50000 151 fl64_nonneg)
    as (A & _ & C & _).
  destruct (shares_from_capital_spec Fl.fl64 50000 (-3) fl64_nonneg)
    as (_ & B & _ & _).
  destruct (shares_from_capital_spec Fl.fl64 0 151 fl64_nonneg)
    as (_ & _ & _ & D).
  split; [|split; [|split]].
  - split; apply A; try discriminate; reflexivity.
  - apply B. discriminate.
  - apply C; reflexivity.
  - apply D. right. reflexivity.
Defined.

(** The claim C3 fails at [safe_shares_from_investment]: for an entry
    price of -5 it returns [None], not 0, and so it does for an
    investment of 0. *)
Lemma shares_from_capital_counterexample :
  -5 <= 0 /\
  V21.safe_shares_from_investment (Some 1000) (Some (-5)) = Ok None /\
  V21.safe_shares_from_investment (Some 1000) (Some (-5)) <> Ok (Some 0%Z) /\
  V21.safe_shares_from_investment (Some 0) (Some 150)
  <> Ok (Some (Qfloor (0 / 150))).
Proof.
  repeat split; try discriminate; reflexivity.
Qed.

(** ** Monotonicity of sizing *)

(** C7: a larger risk limit never gives fewer shares by
    [calc_shares_by_risk], and a larger investment never gives fewer
    shares by [calc_shares_from_investment]; this holds for every entry
    and stop price, in particular for a positive risk per share and a
    positive entry price. *)
Theorem shares_monotone (entry_price stop_loss low high : Q) :
  low <= high ->
  (exists s1 s2 r,
     V1.calc_shares_by_risk low entry_price stop_loss = Ok (s1, r) /\
     V1.calc_shares_by_risk high entry_price stop_loss = Ok (s2, r) /\
     (s1 <= s2)%Z) /\
  (exists s1 s2,
     V1.calc_shares_from_investment low entry_price = Ok s1 /\
     V1.calc_shares_from_investment high entry_price = Ok s2 /\
     (s1 <= s2)%Z).
Proof.
  intros H. split.
  - destruct (Qlt_le_dec 0 (entry_price - stop_loss)) as [P|N].
    + do 3 eexists. rewrite !(calc_shares_by_risk_pos _ _ _ P).
      repeat split. now apply Qfloor_resp_le, Qdiv_le_mono.
    + do 3 eexists. rewrite !(calc_shares_by_risk_nonpos _ _ _ N).
      repeat split. reflexivity.
  - destruct (Qlt_le_dec 0 entry_price) as [P|N].
    + do 2 eexists. rewrite !(calc_shares_from_investment_pos _ _ P).
      repeat split. now apply Qfloor_resp_le, Qdiv_le_mono.
    + do 2 eexists. rewrite !(calc_shares_from_investment_nonpos _ _ N).
      repeat split. reflexivity.
Qed.

Lemma shares_monotone_witness :
  (exists s1 s2 r,
     V1.calc_shares_by_risk 4999 150 140 = Ok (s1, r) /\
     V1.calc_shares_by_risk 5000 150 140 = Ok (s2, r) /\
     (s1 <= s2)%Z) /\
  (exists s1 s2,
     V1.calc_shares_from_investment 4999 150 = Ok s1 /\
     V1.calc_shares_from_investment 5000 150 = Ok s2 /\
     (s1 <= s2)%Z).
Proof.
  apply (shares_monotone 150 140 4999 5000). discriminate.
Defined.

(** ** Integer and fractional share counts *)

Lemma gt_pos (x : Q) : 0 < x -> gt x 0 = true.
Proof. apply gt_true_iff. Qed.

Lemma int_le (x : Q) : 0 <= x -> inject_Z (int x) <= x.
Proof.
  intros H. rewrite (int_nonneg_floor _ H). apply Qfloor_le.
Qed.

Lemma int_nonneg (x : Q) : 0 <= x -> (0 <= int x)%Z.
Proof.
  intros H. rewrite (int_nonneg_floor _ H).
  change 0%Z with (Qfloor 0). now apply Qfloor_resp_le.
Qed.

(** C5, as amended: for a non-negative amount, the share counts of
    [calc_shares_from_investment] and [calc_shares_by_risk] are
    non-negative integers, the quotient the code computes truncated toward
    zero and so never above it (0 when the price or the risk per share is
    not positive).  The dark-mode variant does not truncate: its [shares]
    is [investment / entry_price] and its [shares_allowed] is
    [max_risk / risk_per_share], the quotients themselves. *)
Theorem share_counts_truncate (fl : Q -> Q) (amount entry stop target : Q) :
  (forall x, 0 <= x -> 0 <= fl x) ->
  0 <= amount ->
  (0 < entry ->
   V1.calc_shares_from_investment amount entry = Ok (int (amount / entry)) /\
   (0 <= int (amount / entry))%Z /\
   inject_Z (int (amount / entry)) <= amount / entry) /\
  (entry <= 0 -> V1.calc_shares_from_investment amount entry = Ok 0%Z) /\
  (0 < fl (entry - stop) ->
   Fl.calc_shares_by_risk fl amount entry stop
   = Ok (int (fl (amount / fl (entry - stop))), fl (entry - stop)) /\
   (0 <= int (fl (amount / fl (entry - stop))%Q))%Z /\
   inject_Z (int (fl (amount / fl (entry - stop))))
   <= fl (amount / fl (entry - stop))) /\
  (fl (entry - stop) <= 0 ->
   Fl.calc_shares_by_risk fl amount entry stop
   = Ok (0%Z, fl (entry - stop))) /\
  (0 < entry -> 0 < stop -> 0 < amount ->
   exists r, KPI.tab1_calculate entry target stop amount = Ok (Some r) /\
             KPI.shares r = amount / entry) /\
  (0 < entry -> 0 < stop -> 0 < amount -> 0 < entry - stop ->
   exists r, KPI.tab2_calculate entry stop target amount = Ok (KPI.Results r) /\
             KPI.shares_allowed r = amount / (entry - stop)).
Proof.
  intros Hfl Ha. split; [|split; [|split; [|split; [|split]]]].
  - intros He. pose proof (Qdiv_nonneg _ _ Ha He) as Hq.
    rewrite (int_nonneg_floor _ Hq). split; [|split].
    + now apply calc_shares_from_investment_pos.
    + now apply floor_div_bounds.
    + apply Qfloor_le.
  - apply calc_shares_from_investment_nonpos.
  - intros Hr. pose proof (Hfl _ (Qdiv_nonneg _ _ Ha Hr)) as Hq.
    rewrite (int_nonneg_floor _ Hq). split; [|split].
    + now apply fl_calc_shares_by_risk_pos.
    + change 0%Z with (Qfloor 0). now apply Qfloor_resp_le.
    + apply Qfloor_le.
  - apply fl_calc_shares_by_risk_nonpos.
  - intros He Hs Hp. unfold KPI.tab1_calculate.
    rewrite !gt_pos by assumption. cbn [andb].
    rewrite (div_nonzero _ _ (Qpos_nonzero _ He)). cbn [bind].
    destruct (gt ((entry - stop) * (amount / entry)) 0) eqn:G.
    + apply gt_true_iff in G. rewrite (div_nonzero _ _ (Qpos_nonzero _ G)).
      eexists. split; reflexivity.
    + eexists. split; reflexivity.
  - intros He Hs Hp Hr. unfold KPI.tab2_calculate.
    rewrite !gt_pos by assumption. cbn [andb].
    rewrite (proj2 (Qle_bool_false_iff _ _) Hr).
    rewrite (div_nonzero _ _ (Qpos_nonzero _ Hr)). cbn [bind].
    rewrite (div_nonzero _ _ (Qpos_nonzero _ Hp)).
    eexists. split; reflexivity.
Qed.

Lemma share_counts_truncate_witness :
  V1.calc_shares_from_investment 100 30 = Ok 3%Z /\
  V1.calc_shares_from_investment 100 (-30) = Ok 0%Z /\
  Fl.calc_shares_by_risk Fl.fl64 100 30 27 = Ok (33%Z, Fl.fl64 (30 - 27)) /\
  Fl.calc_shares_by_risk Fl.fl64 100 30 40 = Ok (0%Z, Fl.fl64 (30 - 40)) /\
  (exists r, KPI.tab1_calculate 30 40 27 100 = Ok (Some r) /\
             KPI.shares r = 100 / 30) /\
  (exists r, KPI.tab2_calculate 30 27 40 100 = Ok (KPI.Results r) /\
             KPI.shares_allowed r = 100 / (30 - 27)).
Proof.
  assert (H100 : 0 <= 100) by discriminate.
  destruct (share_counts_truncate Fl.fl64 100 30 27 40 fl64_nonneg H100)
    as (A & _ & C & _ & E & F).
  destruct (share_counts_truncate Fl.fl64 100 (-30) 27 40 fl64_nonneg H100)
    as (_ & B & _).
  destruct (share_counts_truncate Fl.fl64 100 30 40 40 fl64_nonneg H100)
    as (_ & _ & _ & D & _).
  split; [|split; [|split; [|split; [|split]]]].
  - apply A. reflexivity.
  - apply B. discriminate.
  - apply C. reflexivity.
  - apply D. vm_compute. discriminate.
  - apply E; reflexivity.
  - apply F; reflexivity.
Defined.

(** The claim C5 fails in the dark-mode variant: investing 100 at a price
    of 30 gives 10/3 shares, and a risk limit of 100 at a risk per share of
    3 gives 100/3 shares; neither is an integer, and each is above the
    truncated quotient. *)
Lemma share_counts_counterexample :
  (exists r, KPI.tab1_calculate 30 40 27 100 = Ok (Some r) /\
             (forall n : Z, ~ KPI.shares r == inject_Z n) /\
             inject_Z (int (100 / 30)) < KPI.shares r) /\
  (exists r, KPI.tab2_calculate 30 27 40 100 = Ok (KPI.Results r) /\
             (forall n : Z, ~ KPI.shares_allowed r == inject_Z n) /\
             inject_Z (int (100 / (30 - 27))) < KPI.shares_allowed r).
Proof.
  split.
  - eexists. split; [vm_compute; reflexivity|]. split; [|reflexivity].
    intros n. unfold Qeq. cbn. lia.
  - eexists. split; [vm_compute; reflexivity|]. split; [|reflexivity].
    intros n. unfold Qeq. cbn. lia.
Qed.

(** ** Missing inputs in v2.1 *)

Lemma safe_shares_by_risk_falsy (m e s : option Q) :
  missing_or_zero m \/ missing_or_zero e \/ missing_or_zero s ->
  V21.safe_shares_by_risk m e s = Ok (None, None).
Proof.
  intros H. unfold V21.safe_shares_by_risk.
  destruct H as [H|[H|H]]; apply truthy_false_iff in H; rewrite H; cbn.
  - reflexivity.
  - now rewrite orb_true_r.
  - now rewrite orb_true_r.
Qed.

Lemma safe_shares_by_risk_truthy (m e s : Q) :
  ~ m == 0 -> ~ e == 0 -> ~ s == 0 ->
  V21.safe_shares_by_risk (Some m) (Some e) (Some s)
  = Ok (if Qle_bool (e - s) 0
        then (Some 0%Z, Some (e - s))
        else (Some (Qfloor (m / (e - s))), Some (e - s))).
Proof.
  intros Hm He Hs. unfold V21.safe_shares_by_risk.
  rewrite (truthy_Some _ Hm), (truthy_Some _ He), (truthy_Some _ Hs).
  cbn [negb orb V21.sub_opt bind].
  destruct (Qle_bool (e - s) 0) eqn:L; [reflexivity|].
  apply Qle_bool_false_iff in L. cbn [V21.div_opt].
  rewrite (div_nonzero _ _ (Qpos_nonzero _ L)). cbn [bind].
  now rewrite int_np_floor.
Qed.

Lemma missing_or_zero_dec (x : option Q) :
  missing_or_zero x \/ exists v, x = Some v /\ ~ v == 0.
Proof.
  destruct x as [v|]; [|now left].
  destruct (Qeq_dec v 0) as [E|N]; [now left | right; now exists v].
Qed.

(** C9, as amended: [safe_shares_by_risk] never raises and returns
    [(None, None)] exactly when [max_risk], [entry_price] or [stop_loss]
    is [None] or 0; with all three given and non-zero and the stop not
    below the entry it returns the numbers [(0, entry_price - stop_loss)],
    which is a different result.  [safe_shares_from_investment] returns
    [None] when [total_investment] is [None] or 0, or [entry_price] is
    [None], 0 or negative. *)
Theorem safe_inputs_spec (max_risk entry_price stop_loss total_investment
    : option Q) :
  (exists r,
     V21.safe_shares_by_risk max_risk entry_price stop_loss = Ok r /\
     (r = (None, None) <->
      missing_or_zero max_risk \/ missing_or_zero entry_price \/
      missing_or_zero stop_loss)) /\
  (forall m e s,
     max_risk = Some m -> entry_price = Some e -> stop_loss = Some s ->
     ~ m == 0 -> ~ e == 0 -> ~ s == 0 -> e - s <= 0 ->
     V21.safe_shares_by_risk max_risk entry_price stop_loss
     = Ok (Some 0%Z, Some (e - s))) /\
  (missing_or_zero total_investment \/ missing_or_zero entry_price \/
   (exists e, entry_price = Some e /\ e <= 0) ->
   V21.safe_shares_from_investment total_investment entry_price = Ok None).
Proof.
  split; [|split].
  - destruct (missing_or_zero_dec max_risk) as [M|(m & -> & Hm)];
      [|destruct (missing_or_zero_dec entry_price) as [E|(e & -> & He)];
        [|destruct (missing_or_zero_dec stop_loss) as [S|(s & -> & Hs)]]].
    + eexists. split; [apply safe_shares_by_risk_falsy; now left|]. tauto.
    + eexists. split; [apply safe_shares_by_risk_falsy; tauto|]. tauto.
    + eexists. split; [apply safe_shares_by_risk_falsy; tauto|]. tauto.
    + eexists. split; [now apply safe_shares_by_risk_truthy|]. split.
      * destruct (Qle_bool (e - s) 0); discriminate.
      * cbn. tauto.
  - intros m e s -> -> -> Hm He Hs L.
    rewrite (safe_shares_by_risk_truthy _ _ _ Hm He Hs).
    apply Qle_bool_iff in L. now rewrite L.
  - intros [H|[H|(e & -> & L)]].
    + apply safe_shares_from_investment_falsy. now left.
    + apply safe_shares_from_investment_falsy. now right.
    + now apply safe_shares_from_investment_nonpos.
Qed.

Lemma safe_inputs_spec_witness :
  V21.safe_shares_by_risk (Some 5000) (Some 150) (Some 160)
  = Ok (Some 0%Z, Some (150 - 160)) /\
  V21.safe_shares_from_investment None (Some 150) = Ok None /\
  V21.safe_shares_from_investment (Some 5000) (Some (-150)) = Ok None.
Proof.
  destruct (safe_inputs_spec (Some 5000) (Some 150) (Some 160) None)
    as (_ & A & B).
  destruct (safe_inputs_spec None (Some (-150)) None (Some 5000))
    as (_ & _ & C).
  split; [|split].
  - apply (A 5000 150 160); try reflexivity; discriminate.
  - apply B. left. exact I.
  - apply C. right. right. exists (-150). split; [reflexivity | discriminate].
Defined.

(** The claim C9 fails for a negative [total_investment]: with -100 to
    invest at a price of 10, [safe_shares_from_investment] returns the
    number -10, not [None]. *)
Lemma safe_inputs_counterexample :
  -100 <= 0 /\
  V21.safe_shares_from_investment (Some (-100)) (Some 10)
  = Ok (Some (-10)%Z) /\
  V21.safe_shares_from_investment (Some (-100)) (Some 10) <> Ok None.
Proof.
  repeat split; try discriminate; reflexivity.
Qed.

(** ** The secondary caps *)

Lemma calc_metrics_returns (e s t : Q) (sh : Z) (c sl : Q) :
  exists m, V1.calc_metrics e s t sh c sl = Ok m.
Proof. eexists. apply calc_metrics_eq. Qed.

Lemma calc_shares_from_investment_returns (t e : Q) :
  exists n, V1.calc_shares_from_investment t e = Ok n.
Proof.
  destruct (Qlt_le_dec 0 e) as [P|N]; eexists.
  - now apply calc_shares_from_investment_pos.
  - now apply calc_shares_from_investment_nonpos.
Qed.

Lemma min_le_l (a b : Z) : (min a b <= a)%Z.
Proof. unfold min. destruct (Z.ltb_spec b a); lia. Qed.

Lemma min_idem_r (a b : Z) : min (min a b) b = min a b.
Proof.
  unfold min. destruct (Z.ltb_spec b a) as [L|L].
  - now rewrite Z.ltb_irrefl.
  - destruct (Z.ltb_spec b a); [lia | reflexivity].
Qed.

(** C6: the portfolio-percent clamp of tab 1 and the affordable-shares
    clamp of tab 2 never increase the share count, and a second
    application with the same cap changes nothing.  Each clamp divides by
    the entry price, and raises [ZeroDivisionError] instead of returning
    exactly when that price is 0 (and, for tab 1, the cap is active). *)
Theorem clamps_decrease_idempotent (i : V1.Tab1Inputs) (s : V1.Tab1State)
    (j : V1.Tab2Inputs) (u : V1.Tab2State) :
  match V1.tab1_position_cap i s with
  | Ok s' =>
      (V1.shares s' <= V1.shares s)%Z /\ V1.tab1_position_cap i s' = Ok s'
  | Raise e =>
      e = ZeroDivisionError /\ V1.current_price i == 0 /\
      0 < V1.max_position_pct i
  end /\
  match V1.tab2_adjust_to_capital j u with
  | Ok u' =>
      (V1.shares_by_risk u' <= V1.shares_by_risk u)%Z /\
      V1.tab2_adjust_to_capital j u' = Ok u'
  | Raise e => e = ZeroDivisionError /\ V1.entry_price2 j == 0
  end.
Proof.
  split.
  - unfold V1.tab1_position_cap.
    destruct (gt (V1.max_position_pct i) 0) eqn:G;
      [|cbn; split; [lia | reflexivity]].
    unfold div. destruct (eqf (V1.current_price i) 0) eqn:E.
    + cbn. repeat split; [now apply eqf_true_iff | now apply gt_true_iff].
    + cbn [bind]. set (allowed := int _).
      destruct (V1.shares s >? allowed)%Z eqn:C.
      * destruct (calc_metrics_returns (V1.current_price i) (V1.stop_loss i)
                    (V1.target_price i) allowed (V1.commission i)
                    (V1.slippage i)) as [m Hm].
        rewrite Hm. cbn [bind V1.shares]. split; [lia|].
        now rewrite Z.gtb_ltb, Z.ltb_irrefl.
      * split; [lia|]. now rewrite C.
  - unfold V1.tab2_adjust_to_capital, div.
    destruct (eqf (V1.entry_price2 j) 0) eqn:E.
    + cbn. split; [reflexivity | now apply eqf_true_iff].
    + cbn [bind]. set (affordable := int _).
      destruct (calc_metrics_returns (V1.entry_price2 j) (V1.stop_loss2 j)
                  (V1.target2 j) (min (V1.shares_by_risk u) affordable) 0 0)
        as [m Hm].
      rewrite Hm. cbn [bind V1.shares_by_risk V1.raw_risk_per_share].
      split; [apply min_le_l|].
      rewrite min_idem_r, Hm. reflexivity.
Qed.

(** C10: when tab 1 recomputes the metrics after the portfolio-percent
    clamp, the per-share fields and the reward:risk ratio are those of the
    first computation; the share count does not grow, and the required
    investment, total risk and total profit are recomputed from it. *)
Theorem position_cap_frame (i : V1.Tab1Inputs) :
  ~ V1.current_price i == 0 ->
  exists s s',
    V1.tab1_calculations i = Ok s /\
    V1.tab1_position_cap i s = Ok s' /\
    V1.risk_per_share (V1.metrics s') = V1.risk_per_share (V1.metrics s) /\
    V1.adj_risk_per_share (V1.metrics s')
    = V1.adj_risk_per_share (V1.metrics s) /\
    V1.profit_per_share (V1.metrics s')
    = V1.profit_per_share (V1.metrics s) /\
    V1.adj_profit_per_share (V1.metrics s')
    = V1.adj_profit_per_share (V1.metrics s) /\
    V1.reward_risk_ratio (V1.metrics s')
    = V1.reward_risk_ratio (V1.metrics s) /\
    (V1.shares s' <= V1.shares s)%Z /\
    V1.required_investment s' = inject_Z (V1.shares s') * V1.current_price i /\
    V1.total_risk (V1.metrics s')
    = V1.adj_risk_per_share (V1.metrics s') * inject_Z (V1.shares s') /\
    V1.total_profit (V1.metrics s')
    = V1.adj_profit_per_share (V1.metrics s') * inject_Z (V1.shares s').
Proof.
  intros NZ. unfold V1.tab1_calculations.
  destruct (calc_shares_from_investment_returns (V1.total_investment i)
              (V1.current_price i)) as [n Hn].
  rewrite Hn. cbn [bind]. rewrite calc_metrics_eq. cbn [bind].
  match goal with |- exists s s', Ok ?x = Ok s /\ _ => exists x end.
  unfold V1.tab1_position_cap. cbn [V1.shares].
  destruct (gt (V1.max_position_pct i) 0).
  - rewrite (div_nonzero _ _ NZ). cbn [bind].
    set (allowed := int _). destruct (n >? allowed)%Z eqn:C.
    + rewrite calc_metrics_eq. cbn [bind]. eexists.
      split; [reflexivity|]. split; [reflexivity|]. cbn.
      repeat split. lia.
    + eexists. split; [reflexivity|]. split; [reflexivity|]. cbn.
      repeat split. lia.
  - eexists. split; [reflexivity|]. split; [reflexivity|]. cbn.
    repeat split. lia.
Qed.

Lemma position_cap_frame_witness :
  exists s s',
    V1.tab1_calculations (V1.mkTab1Inputs "PSX:ABC" 50000 150 1 (1 # 2)
                            140 180 10) = Ok s /\
    V1.tab1_position_cap (V1.mkTab1Inputs "PSX:ABC" 50000 150 1 (1 # 2)
                            140 180 10) s = Ok s' /\
    V1.shares s = 333%Z /\ V1.shares s' = 33%Z /\
    V1.reward_risk_ratio (V1.metrics s')
    = V1.reward_risk_ratio (V1.metrics s).
Proof.
  destruct (position_cap_frame
              (V1.mkTab1Inputs "PSX:ABC" 50000 150 1 (1 # 2) 140 180 10))
    as (s & s' & A & B & _ & _ & _ & _ & R & _); [discriminate|].
  exists s, s'. split; [exact A|]. split; [exact B|].
  split; [|split; [|exact R]].
  - injection A as <-. reflexivity.
  - revert B. injection A as <-. intros B. injection B as <-. reflexivity.
Defined.

(** ** Whole shares: the largest count that fits *)

Lemma floor_div_next (t e : Q) :
  0 < e -> t < inject_Z (Qfloor (t / e) + 1) * e.
Proof.
  intros He. apply Qle_lt_trans with ((t / e) * e).
  - rewrite Qmult_comm, Qmult_div_r; [apply Qle_refl | now apply Qpos_nonzero].
  - apply Qmult_lt_compat_r; [exact He | apply Qlt_floor].
Qed.

(** X1: for a risk limit [max_risk >= 0], a stop below the entry and a
    quotient below [2^53], the count [calc_shares_by_risk] returns is the
    largest whole number of shares that fits the limit at the risk per
    share it returns, or one more when the rounded quotient reaches the
    next integer: one share fewer always fits and one share more never
    does. *)
Theorem shares_by_risk_largest_fit (fl : Q -> Q)
    (max_risk entry_price stop_loss : Q) :
  Rounding fl ->
  0 <= max_risk -> 0 < fl (entry_price - stop_loss) ->
  max_risk / fl (entry_price - stop_loss) <= inject_Z (2 ^ 53 - 1) ->
  exists n,
    Fl.calc_shares_by_risk fl max_risk entry_price stop_loss
    = Ok (n, fl (entry_price - stop_loss)) /\
    (0 <= n)%Z /\
    inject_Z (n - 1) * fl (entry_price - stop_loss) <= max_risk /\
    max_risk < inject_Z (n + 1) * fl (entry_price - stop_loss).
Proof.
  intros R Hm Hr Hq. set (r := fl (entry_price - stop_loss)) in *.
  eexists. split; [now apply fl_calc_shares_by_risk_pos|]. fold r.
  pose proof (Qdiv_nonneg _ _ Hm Hr) as Q0.
  destruct (rounded_floor_within fl _ R Q0 Hq) as [L U].
  destruct (floor_div_bounds _ _ Hm Hr) as [K0 K1].
  pose proof (floor_div_next max_risk r Hr) as K2.
  set (k := Qfloor (max_risk / r)) in *.
  set (n := Qfloor (fl (max_risk / r))) in *.
  pose proof (Qlt_le_weak _ _ Hr) as Hr'.
  split; [lia|]. split.
  - apply Qle_trans with (inject_Z k * r); [|exact K1].
    apply Qmult_le_compat_r; [|exact Hr']. rewrite <- Zle_Qle. lia.
  - apply Qlt_le_trans with (inject_Z (k + 1) * r); [exact K2|].
    apply Qmult_le_compat_r; [|exact Hr']. rewrite <- Zle_Qle. lia.
Qed.

Lemma shares_by_risk_largest_fit_witness :
  exists n,
    Fl.calc_shares_by_risk Fl.fl64 100 (Fl.fl64 2.35) (Fl.fl64 1.55)
    = Ok (n, Fl.fl64 (Fl.fl64 2.35 - Fl.fl64 1.55)) /\
    (0 <= n)%Z /\
    inject_Z (n - 1) * Fl.fl64 (Fl.fl64 2.35 - Fl.fl64 1.55) <= 100 /\
    100 < inject_Z (n + 1) * Fl.fl64 (Fl.fl64 2.35 - Fl.fl64 1.55).
Proof.
  apply (shares_by_risk_largest_fit Fl.fl64 100 (Fl.fl64 2.35) (Fl.fl64 1.55)
           rounding_fl64);
    [discriminate | vm_compute; reflexivity | vm_compute; discriminate].
Defined.

(** X2: for an investment [total_investment >= 0] and a positive price,
    [calc_shares_from_investment] returns the largest whole number of
    shares the investment pays for: one share more would cost more than
    the investment. *)
Theorem shares_from_investment_largest_fit (total_investment current_price : Q) :
  0 <= total_investment -> 0 < current_price ->
  exists n,
    V1.calc_shares_from_investment total_investment current_price = Ok n /\
    (0 <= n)%Z /\
    inject_Z n * current_price <= total_investment /\
    total_investment < inject_Z (n + 1) * current_price.
Proof.
  intros Ht Hp. eexists. split; [now apply calc_shares_from_investment_pos|].
  split; [|split].
  - now apply floor_div_bounds.
  - now apply floor_div_bounds.
  - now apply floor_div_next.
Qed.

Lemma shares_from_investment_largest_fit_witness :
  exists n,
    V1.calc_shares_from_investment 50000 151 = Ok n /\
    (0 <= n)%Z /\
    inject_Z n * 151 <= 50000 /\
    50000 < inject_Z (n + 1) * 151.
Proof.
  apply (shares_from_investment_largest_fit 50000 151);
    [discriminate | reflexivity].
Defined.

(** ** Tab 2 of v1.0: the risk limit and the capital are respected *)



Lemma inject_Z_le (a b : Z) : (a <= b)%Z -> inject_Z a <= inject_Z b.
Proof. intros H. now rewrite <- Zle_Qle. Qed.







(** ** Tab 1 of v1.0: the investment and the portfolio cap are respected *)



(** X6: a run of tab 1 fails exactly when the price is 0 while a portfolio
    cap is set, and then with [ZeroDivisionError]: the share count itself
    is guarded against a price of 0, the cap is not. *)
Theorem tab1_fails_iff_zero_price_with_cap (now : string) (i : V1.Tab1Inputs) :
  (V1.tab1 now i = Raise ZeroDivisionError <->
   V1.current_price i == 0 /\ 0 < V1.max_position_pct i) /\
  (~ (V1.current_price i == 0 /\ 0 < V1.max_position_pct i) ->
   exists summary, V1.tab1 now i = Ok summary).
Proof.
  unfold V1.tab1, V1.tab1_calculations.
  destruct (calc_shares_from_investment_returns (V1.total_investment i)
              (V1.current_price i)) as [n Hn].
  rewrite Hn. cbn [bind]. rewrite calc_metrics_eq. cbn [bind].
  unfold V1.tab1_position_cap. cbn [V1.shares].
  destruct (gt (V1.max_position_pct i) 0) eqn:G.
  - apply gt_true_iff in G. unfold div.
    destruct (eqf (V1.current_price i) 0) eqn:E.
    + apply eqf_true_iff in E. cbn. split; [tauto|]. tauto.
    + apply eqf_false_iff in E. cbn [bind].
      destruct (n >? _)%Z.
      * rewrite calc_metrics_eq. cbn [bind]. split.
        -- split; [discriminate | tauto].
        -- intros _. eexists. reflexivity.
      * cbn [bind]. split.
        -- split; [discriminate | tauto].
        -- intros _. eexists. reflexivity.
  - cbn [bind]. split.
    + split; [discriminate|]. intros [_ P].
      apply gt_true_iff in P. congruence.
    + intros _. eexists. reflexivity.
Qed.

Lemma tab1_fails_iff_zero_price_with_cap_witness :
  V1.tab1 "2025-01-01" (V1.mkTab1Inputs "PSX:ABC" 50000 0 0 0 140 180 10)
  = Raise ZeroDivisionError /\
  exists summary,
    V1.tab1 "2025-01-01" (V1.mkTab1Inputs "PSX:ABC" 50000 0 0 0 140 180 0)
    = Ok summary.
Proof.
  split.
  - apply (tab1_fails_iff_zero_price_with_cap "2025-01-01"
             (V1.mkTab1Inputs "PSX:ABC" 50000 0 0 0 140 180 10)).
    split; reflexivity.
  - apply (tab1_fails_iff_zero_price_with_cap "2025-01-01"
             (V1.mkTab1Inputs "PSX:ABC" 50000 0 0 0 140 180 0)).
    intros [_ H]. discriminate H.
Defined.

(** ** Tab 2 of v1.0: which zero is which *)

Lemma floor_div_zero_iff (m r : Q) :
  0 <= m -> 0 < r -> (Qfloor (m / r) = 0%Z <-> m < r).
Proof.
  intros Hm Hr. split.
  - intros E. pose proof (floor_div_next m r Hr) as H. rewrite E in H.
    change (inject_Z (0 + 1)) with 1 in H. now rewrite Qmult_1_l in H.
  - intros L. destruct (floor_div_bounds m r Hm Hr) as [A _].
    assert (B : inject_Z (Qfloor (m / r)) < inject_Z 1).
    { apply Qle_lt_trans with (m / r); [apply Qfloor_le|].
      apply Qlt_shift_div_r; [exact Hr|]. now rewrite Qmult_1_l. }
    rewrite <- Zlt_Qlt in B. lia.
Qed.

(** X7: for a risk limit [max_risk >= 0], the message of tab 2 tells the
    two zero-share outcomes apart, on the risk per share and the quotient
    the code computes: the stop-loss error is shown exactly when the risk
    per share is not positive, the zero-shares warning exactly when it is
    positive and the quotient is below 1, and the success message exactly
    when the quotient is at least 1, which it is whenever the limit
    covers the risk of one share. *)
Theorem tab2_guidance_cases (fl : Q -> Q)
    (max_risk entry_price stop_loss : Q) :
  Rounding fl -> 0 <= max_risk ->
  exists n r,
    Fl.calc_shares_by_risk fl max_risk entry_price stop_loss = Ok (n, r) /\
    r = fl (entry_price - stop_loss) /\
    forall s : V1.Tab2State,
      V1.shares_by_risk s = n -> V1.raw_risk_per_share s = r ->
      (V1.tab2_guidance s = V1.StopLossNotBelowEntry <-> r <= 0) /\
      (V1.tab2_guidance s = V1.ZeroShares <->
       0 < r /\ fl (max_risk / r) < 1) /\
      (V1.tab2_guidance s = V1.SizingComputed <->
       0 < r /\ 1 <= fl (max_risk / r)) /\
      (0 < r -> r <= max_risk -> V1.tab2_guidance s = V1.SizingComputed).
Proof.
  intros R Hm. set (r := fl (entry_price - stop_loss)).
  destruct (Qlt_le_dec 0 r) as [P|N].
  - exists (Qfloor (fl (max_risk / r))), r.
    split; [now apply fl_calc_shares_by_risk_pos|]. split; [reflexivity|].
    intros s Hn Hr. unfold V1.tab2_guidance. rewrite Hn, Hr.
    rewrite (proj2 (Qle_bool_false_iff _ _) P).
    pose proof (rounding_nonneg fl R _ (Qdiv_nonneg _ _ Hm P)) as Q0.
    set (q := fl (max_risk / r)) in *.
    assert (F0 : (0 <= Qfloor q)%Z)
      by (change 0%Z with (Qfloor 0); now apply Qfloor_resp_le).
    assert (Z0 : Qfloor q = 0%Z <-> q < 1).
    { split.
      - intros E. pose proof (Qlt_floor q) as H. rewrite E in H. exact H.
      - intros L. assert (B : inject_Z (Qfloor q) < inject_Z 1)
          by (apply Qle_lt_trans with q; [apply Qfloor_le | exact L]).
        rewrite <- Zlt_Qlt in B. lia. }
    assert (C : r <= max_risk -> 1 <= q).
    { intros H. unfold q. rewrite <- (fl_int fl R 1) by discriminate.
      apply (fl_mono fl R). apply Qle_shift_div_l; [exact P|].
      now rewrite Qmult_1_l. }
    destruct (Z.eqb_spec (Qfloor q) 0) as [E|E].
    + apply Z0 in E. split.
      { split; [discriminate|]. intros H. exfalso. apply (Qlt_not_le _ _ P H). }
      split; [tauto|]. split.
      * split; [discriminate|]. intros [_ H]. exfalso.
        apply (Qlt_not_le _ _ E H).
      * intros _ H. exfalso. apply (Qlt_not_le _ _ E (C H)).
    + assert (G : 1 <= q).
      { apply Qnot_lt_le. intros H. apply Z0 in H. contradiction. }
      split.
      { split; [discriminate|]. intros H. exfalso. apply (Qlt_not_le _ _ P H). }
      split.
      * split; [discriminate|]. intros [_ H]. exfalso.
        apply (Qlt_not_le _ _ H G).
      * split; [tauto | reflexivity].
  - exists 0%Z, r.
    split; [now apply fl_calc_shares_by_risk_nonpos|]. split; [reflexivity|].
    intros s Hn Hr. unfold V1.tab2_guidance. rewrite Hr.
    rewrite (proj2 (Qle_bool_iff _ _) N).
    split; [tauto|].
    split; [split; [discriminate | intros [H _]; exfalso;
                                   apply (Qlt_not_le _ _ H N)]|].
    split; [split; [discriminate | intros [H _]; exfalso;
                                   apply (Qlt_not_le _ _ H N)]|].
    intros H. exfalso. apply (Qlt_not_le _ _ H N).
Qed.

Lemma tab2_guidance_cases_witness :
  exists n r,
    Fl.calc_shares_by_risk Fl.fl64 10 (Fl.fl64 12.06) (Fl.fl64 2.06)
    = Ok (n, r) /\
    V1.tab2_guidance (V1.mkTab2State n r (V1.mkMetrics 0 0 0 0 0 0 None) 0)
    = V1.SizingComputed.
Proof.
  destruct (tab2_guidance_cases Fl.fl64 10 (Fl.fl64 12.06) (Fl.fl64 2.06)
              rounding_fl64)
    as (n & r & E & Hr & G); [discriminate|].
  exists n, r. split; [exact E|].
  destruct (G (V1.mkTab2State n r (V1.mkMetrics 0 0 0 0 0 0 None) 0)
              eq_refl eq_refl) as (_ & _ & _ & S).
  apply S; rewrite Hr; vm_compute; [reflexivity | discriminate].
Defined.

(** X8: the affordable-shares bar of the chart never fails.  For a
    positive entry price it is the count the button [Adjust shares to fit
    available capital] clamps to; at an entry price of 0 the chart shows 0
    while the button, which has no such guard, fails with
    [ZeroDivisionError]. *)
Theorem tab2_chart_affordable_spec (i : V1.Tab2Inputs) (s : V1.Tab2State) :
  exists a,
    V1.tab2_chart_affordable i = Ok a /\
    (0 < V1.entry_price2 i ->
     exists s', V1.tab2_adjust_to_capital i s = Ok s' /\
                V1.shares_by_risk s' = min (V1.shares_by_risk s) a) /\
    (V1.entry_price2 i == 0 ->
     a = 0%Z /\ V1.tab2_adjust_to_capital i s = Raise ZeroDivisionError).
Proof.
  unfold V1.tab2_chart_affordable, V1.tab2_adjust_to_capital.
  destruct (gt (V1.entry_price2 i) 0) eqn:G.
  - apply gt_true_iff in G.
    rewrite (div_nonzero _ _ (Qpos_nonzero _ G)). cbn [bind].
    eexists. split; [reflexivity|]. split.
    + intros _. rewrite calc_metrics_eq. cbn [bind].
      eexists. split; reflexivity.
    + intros E. exfalso. now apply (Qpos_nonzero _ G).
  - exists 0%Z. split; [reflexivity|]. split.
    + intros P. apply gt_true_iff in P. congruence.
    + intros E. split; [reflexivity|]. unfold div.
      now rewrite (proj2 (eqf_true_iff _ _) E).
Qed.

Lemma tab2_chart_affordable_spec_witness :
  V1.tab2_chart_affordable
    (V1.mkTab2Inputs 0 140 180 100000 (V1.PKR_absolute 5000)) = Ok 0%Z /\
  V1.tab2_adjust_to_capital
    (V1.mkTab2Inputs 0 140 180 100000 (V1.PKR_absolute 5000))
    (V1.mkTab2State 0 (-140) (V1.mkMetrics 0 0 0 0 0 0 None) 0)
  = Raise ZeroDivisionError.
Proof.
  destruct (tab2_chart_affordable_spec
              (V1.mkTab2Inputs 0 140 180 100000 (V1.PKR_absolute 5000))
              (V1.mkTab2State 0 (-140) (V1.mkMetrics 0 0 0 0 0 0 None) 0))
    as (a & E & _ & Z0).
  destruct Z0 as [-> R]; [reflexivity|].
  split; [exact E | exact R].
Defined.

(** ** Costs in [calc_metrics] *)

(** X9: for non-negative commission, slippage and share count, the costs
    never understate the risk nor overstate the reward, per share and in
    total; and they cancel in the sum: the adjusted risk and reward per
    share always add up to the distance from stop to target. *)
Theorem calc_metrics_costs (entry stop target : Q) (shares : Z)
    (commission slippage : Q) :
  0 <= commission -> 0 <= slippage -> (0 <= shares)%Z ->
  exists m,
    V1.calc_metrics entry stop target shares commission slippage = Ok m /\
    V1.risk_per_share m <= V1.adj_risk_per_share m /\
    V1.adj_profit_per_share m <= V1.profit_per_share m /\
    V1.risk_per_share m * inject_Z shares <= V1.total_risk m /\
    V1.total_profit m <= V1.profit_per_share m * inject_Z shares /\
    V1.adj_risk_per_share m + V1.adj_profit_per_share m == target - stop /\
    V1.total_risk m + V1.total_profit m == (target - stop) * inject_Z shares.
Proof.
  intros Hc Hs Hn. eexists. split; [apply calc_metrics_eq|].
  cbn [V1.risk_per_share V1.adj_risk_per_share V1.profit_per_share
       V1.adj_profit_per_share V1.total_risk V1.total_profit].
  assert (N : 0 <= inject_Z shares) by now apply (inject_Z_le 0 shares).
  assert (A : entry - stop <= entry - stop + commission + slippage) by lra.
  assert (B : target - entry - commission - slippage <= target - entry) by lra.
  split; [exact A|]. split; [exact B|].
  split; [now apply Qmult_le_compat_r|].
  split; [now apply Qmult_le_compat_r|].
  split; ring.
Qed.

Lemma calc_metrics_costs_witness :
  exists m,
    V1.calc_metrics 150 140 180 500 1 (1 # 2) = Ok m /\
    V1.adj_risk_per_share m + V1.adj_profit_per_share m == 180 - 140 /\
    V1.total_risk m + V1.total_profit m == (180 - 140) * inject_Z 500.
Proof.
  destruct (calc_metrics_costs 150 140 180 500 1 (1 # 2))
    as (m & E & _ & _ & _ & _ & A & B); try discriminate.
  exists m. repeat split; assumption.
Defined.

(** ** How far the rounded ratio is from the quotient *)

Lemma round_half_even_error (x : Q) :
  Qabs (inject_Z (round_half_even x) - x) <= 1 # 2.
Proof.
  unfold round_half_even.
  pose proof (Qfloor_le x) as L. pose proof (Qlt_floor x) as U.
  rewrite inject_Z_plus in U. change (inject_Z 1) with 1 in U.
  set (f := Qfloor x) in *. apply Qabs_Qle_condition.
  destruct (Qcompare_spec (x - inject_Z f) (1 # 2)) as [E|E|E].
  - destruct (Z.even f).
    + split; lra.
    + rewrite inject_Z_plus. change (inject_Z 1) with 1. split; lra.
  - split; lra.
  - rewrite inject_Z_plus. change (inject_Z 1) with 1. split; lra.
Qed.

Lemma round_3_error (x : Q) : Qabs (round x 3 - x) <= 1 # 2000.
Proof.
  unfold round. change (inject_Z (10 ^ Z.of_nat 3)) with 1000.
  pose proof (round_half_even_error (x * 1000)) as H.
  apply Qabs_Qle_condition in H. apply Qabs_Qle_condition.
  set (z := inject_Z (round_half_even (x * 1000))) in *.
  assert (D : z / 1000 == z * (1 # 1000)) by (unfold Qdiv; reflexivity).
  rewrite D. split; lra.
Qed.

Lemma round_2_error (x : Q) : Qabs (round x 2 - x) <= 1 # 200.
Proof.
  unfold round. change (inject_Z (10 ^ Z.of_nat 2)) with 100.
  pose proof (round_half_even_error (x * 100)) as H.
  apply Qabs_Qle_condition in H. apply Qabs_Qle_condition.
  set (z := inject_Z (round_half_even (x * 100))) in *.
  assert (D : z / 100 == z * (1 # 100)) by (unfold Qdiv; reflexivity).
  rewrite D. split; lra.
Qed.

(** X10: whenever a ratio is reported, it is the quotient of reward by
    risk up to half a unit of its last decimal: within 0.0005 in
    [calc_metrics] (three decimals, positive adjusted risk) and within
    0.005 in [compute_reward_risk] (two decimals, non-zero risk). *)
Theorem ratio_rounding_error (entry stop target : Q) (shares : Z)
    (commission slippage p r : Q) :
  (0 < entry - stop + commission + slippage ->
   exists m ratio,
     V1.calc_metrics entry stop target shares commission slippage = Ok m /\
     V1.reward_risk_ratio m = Some ratio /\
     Qabs (ratio - V1.adj_profit_per_share m / V1.adj_risk_per_share m)
     <= 1 # 2000) /\
  (~ r == 0 ->
   exists ratio,
     V21.compute_reward_risk (Some p) (Some r) = Ok (Some ratio) /\
     Qabs (ratio - p / r) <= 1 # 200).
Proof.
  split.
  - intros H. do 2 eexists. split; [apply calc_metrics_eq|].
    cbn [V1.reward_risk_ratio V1.adj_profit_per_share V1.adj_risk_per_share].
    rewrite (gt_pos _ H). split; [reflexivity | apply round_3_error].
  - intros H. unfold V21.compute_reward_risk.
    rewrite (proj2 (eqf_false_iff _ _) H), (div_nonzero _ _ H). cbn [bind].
    eexists. split; [reflexivity | apply round_2_error].
Qed.

Lemma ratio_rounding_error_witness :
  (exists m ratio,
     V1.calc_metrics 150 140 180 500 1 (1 # 2) = Ok m /\
     V1.reward_risk_ratio m = Some ratio /\
     Qabs (ratio - V1.adj_profit_per_share m / V1.adj_risk_per_share m)
     <= 1 # 2000) /\
  (exists ratio,
     V21.compute_reward_risk (Some 20) (Some (-3)) = Ok (Some ratio) /\
     Qabs (ratio - 20 / -3) <= 1 # 200).
Proof.
  destruct (ratio_rounding_error 150 140 180 500 1 (1 # 2) 20 (-3)) as [A B].
  split; [apply A; reflexivity | apply B; discriminate].
Defined.

(** ** v2.1: which fields break a tab *)

Lemma fl64_max_float :
  Fl.fl64 (inject_Z Ext.max_float + (1 # 200)) == inject_Z Ext.max_float.
Proof. vm_compute. reflexivity. Qed.

Lemma fl64_min_float :
  Fl.fl64 (- inject_Z Ext.max_float - (1 # 200)) == - inject_Z Ext.max_float.
Proof. vm_compute. reflexivity. Qed.

(** A result within the finite range, and a little beyond, is finite. *)
Lemma rnd_finite (x : Q) :
  Qabs x <= inject_Z Ext.max_float + (1 # 200) ->
  exists r, Ext.rnd x = Ext.Fin r.
Proof.
  intros H. apply Qabs_Qle_condition in H. destruct H as [L U].
  unfold Ext.rnd.
  assert (B : Qabs (Fl.fl64 x) <= inject_Z Ext.max_float).
  { apply Qabs_Qle_condition. split.
    - rewrite <- fl64_min_float. apply fl64_mono.
      eapply Qle_trans; [|exact L]. apply Qle_lteq. right.
      unfold Qminus. rewrite Qopp_plus. reflexivity.
    - rewrite <- fl64_max_float. now apply fl64_mono. }
  apply Qle_bool_iff in B. rewrite B. eexists. reflexivity.
Qed.

Lemma rnd_bound (x r : Q) :
  Ext.rnd x = Ext.Fin r -> Qabs r <= inject_Z Ext.max_float.
Proof.
  unfold Ext.rnd.
  destruct (Qle_bool (Qabs (Fl.fl64 x)) (inject_Z Ext.max_float)) eqn:B.
  - intros [= <-]. now apply Qle_bool_iff.
  - destruct (Qle_bool 0 (Fl.fl64 x)); discriminate.
Qed.

(** A finite quotient lies in the finite range. *)
Lemma div_bound (x y : Ext.float) (r : Q) :
  Ext.div x y = Ok (Ext.Fin r) -> Qabs r <= inject_Z Ext.max_float.
Proof.
  unfold Ext.div. destruct (Ext.is_zero y); [discriminate|].
  destruct x as [a| | |], y as [b| | |]; intros [= H];
    try discriminate H;
    try (subst r; vm_compute; discriminate);
    try (cbn in H; destruct (gt b 0); discriminate H).
  now apply rnd_bound in H.
Qed.

Lemma div_nonzero_ok (x y : Ext.float) :
  Ext.is_zero y = false -> exists q, Ext.div x y = Ok q.
Proof. intros H. unfold Ext.div. rewrite H. eexists. reflexivity. Qed.

Lemma le_zero_nonzero (x : Ext.float) :
  Ext.le_zero x = false -> Ext.is_zero x = false.
Proof.
  destruct x as [a| | |]; try reflexivity. cbn.
  intros H. apply Qle_bool_false_iff in H.
  now apply eqf_false_iff, Qpos_nonzero.
Qed.

(** The whole number cut from a finite quotient converts back to a
    float. *)
Lemma floor_bound (r : Q) (m : Z) :
  Qabs r <= inject_Z m -> Qabs (inject_Z (Qfloor r)) <= inject_Z m.
Proof.
  intros H. apply Qabs_Qle_condition in H. destruct H as [L U].
  apply Qabs_Qle_condition. split.
  - rewrite <- inject_Z_opp, <- Zle_Qle.
    rewrite <- inject_Z_opp in L.
    rewrite <- (Qfloor_Z (- m)). now apply Qfloor_resp_le.
  - eapply Qle_trans; [apply Qfloor_le | exact U].
Qed.

Lemma int_floor_cases (q : Ext.float) :
  match q with
  | Ext.Fin r => Ext.int (Ext.np_floor q) = Ok (Qfloor r)
  | Ext.NaN => Ext.int (Ext.np_floor q) = Raise ValueError
  | _ => Ext.int (Ext.np_floor q) = Raise OverflowError
  end.
Proof.
  destruct q; try reflexivity. cbn [Ext.np_floor Ext.int].
  now rewrite int_np_floor.
Qed.

Lemma of_int_ok (k : Z) :
  Qabs (inject_Z k) <= inject_Z Ext.max_float ->
  exists r, Ext.of_int k = Ok (Ext.Fin r).
Proof.
  intros H. unfold Ext.of_int.
  destruct (rnd_finite (inject_Z k)) as [r ->]; [|eexists; reflexivity].
  eapply Qle_trans; [exact H|]. lra.
Qed.

Lemma round_bound (r : Q) :
  Qabs r <= inject_Z Ext.max_float ->
  Qabs (Py.round r 2) <= inject_Z Ext.max_float + (1 # 200).
Proof.
  intros H. pose proof (round_2_error r) as E.
  apply Qabs_Qle_condition in H. apply Qabs_Qle_condition in E.
  apply Qabs_Qle_condition. lra.
Qed.

(** [compute_reward_risk] never raises. *)
Lemma compute_reward_risk_ok (p r : option Ext.float) :
  exists x, Ext.compute_reward_risk p r = Ok x /\
            (p = None \/ r = None -> x = None).
Proof.
  unfold Ext.compute_reward_risk.
  destruct p as [p|], r as [r|];
    try (eexists; split; [reflexivity | intros _; reflexivity]).
  destruct (Ext.is_zero r) eqn:Z.
  - eexists. split; [reflexivity|]. intros [H|H]; discriminate H.
  - destruct (div_nonzero_ok p r Z) as [q Hq]. rewrite Hq. cbn [bind].
    assert (R : exists v, Ext.round q 2 = Ok v).
    { destruct q as [a| | |]; try (eexists; reflexivity).
      unfold Ext.round.
      destruct (rnd_finite (Py.round a 2)) as [v ->];
        [|eexists; reflexivity].
      apply round_bound. exact (div_bound _ _ _ Hq). }
    destruct R as [v ->]. cbn [bind]. eexists.
    split; [reflexivity|]. intros [H|H]; discriminate H.
Qed.

Lemma truthy_Some_inv (x : option Ext.float) :
  Ext.truthy x = true -> exists v, x = Some v /\ Ext.is_zero v = false.
Proof.
  destruct x as [v|]; [|discriminate]. cbn. intros H.
  exists v. split; [reflexivity|]. now apply negb_true_iff.
Qed.

(** The share count of tab 1: when it raises, and what it is when not. *)
Lemma tab1_shares_raise (invest entry : option Ext.float) (e : exn) :
  (if Ext.truthy invest && Ext.truthy entry
   then Ext.safe_shares_from_investment invest entry
   else Ok None) = Raise e <->
  exists i p q,
    invest = Some i /\ entry = Some p /\
    Ext.is_zero i = false /\ Ext.le_zero p = false /\
    Ext.div i p = Ok q /\
    (q = Ext.NaN /\ e = ValueError \/
     (q = Ext.PInf \/ q = Ext.NInf) /\ e = OverflowError).
Proof.
  split.
  - destruct (Ext.truthy invest) eqn:Ti; [|discriminate].
    destruct (Ext.truthy entry) eqn:Te; [|discriminate].
    cbn [andb]. unfold Ext.safe_shares_from_investment.
    rewrite Ti, Te. cbn [negb orb].
    destruct (truthy_Some_inv _ Ti) as (i & -> & Zi).
    destruct (truthy_Some_inv _ Te) as (p & -> & Zp).
    cbn [Ext.le_opt bind Ext.div_opt].
    destruct (Ext.le_zero p) eqn:L; [discriminate|].
    destruct (div_nonzero_ok i p Zp) as [q Hq]. rewrite Hq. cbn [bind].
    pose proof (int_floor_cases q) as C.
    destruct q; rewrite C; cbn [bind]; intros [= <-];
      exists i, p; eexists; repeat (split; [eassumption || reflexivity|]);
      auto.
  - intros (i & p & q & -> & -> & Zi & L & Hq & C).
    pose proof (le_zero_nonzero _ L) as Zp.
    unfold Ext.safe_shares_from_investment. cbn [Ext.truthy].
    rewrite Zi, Zp. cbn [negb andb orb Ext.le_opt bind Ext.div_opt].
    rewrite L, Hq. cbn [bind].
    destruct C as [[-> ->]|[[->| ->] ->]]; reflexivity.
Qed.

Lemma tab1_shares_ok (invest entry : option Ext.float) (n : option Z) :
  (if Ext.truthy invest && Ext.truthy entry
   then Ext.safe_shares_from_investment invest entry
   else Ok None) = Ok n ->
  (forall k, n = Some k -> Qabs (inject_Z k) <= inject_Z Ext.max_float) /\
  (Ext.truthy invest = false \/ Ext.truthy entry = false -> n = None).
Proof.
  destruct (Ext.truthy invest) eqn:Ti;
    [|intros [= <-]; split; [discriminate | reflexivity]].
  destruct (Ext.truthy entry) eqn:Te;
    [|intros [= <-]; split; [discriminate | reflexivity]].
  cbn [andb]. unfold Ext.safe_shares_from_investment.
  rewrite Ti, Te. cbn [negb orb].
  destruct (truthy_Some_inv _ Ti) as (i & -> & Zi).
  destruct (truthy_Some_inv _ Te) as (p & -> & Zp).
  cbn [Ext.le_opt bind Ext.div_opt].
  destruct (Ext.le_zero p) eqn:L.
  - intros [= <-]. split; [discriminate|]. intros [H|H]; discriminate H.
  - destruct (div_nonzero_ok i p Zp) as [q Hq]. rewrite Hq. cbn [bind].
    pose proof (int_floor_cases q) as C.
    destruct q as [r| | |]; rewrite C; cbn [bind]; intros [= <-].
    split; [|intros [H|H]; discriminate H].
    intros k [= <-]. apply floor_bound. exact (div_bound _ _ _ Hq).
Qed.

Ltac ext_step :=
  cbn [bind negb andb orb Ext.truthy truthy_int fst snd
       Ext.sub_opt Ext.add_opt Ext.mul_opt_int Ext.mul_int_opt];
  try unfold Ext.or_zero.

Ltac ext_guards :=
  repeat (ext_step;
          match goal with
          | H : Ext.of_int ?k = Ok _ |- context [Ext.of_int ?k] => rewrite H
          | |- context [Ext.is_zero ?a] => destruct (Ext.is_zero a) eqn:?
          | |- context [Z.eqb ?a ?b] => destruct (Z.eqb a b) eqn:?
          | |- context [Ext.compute_reward_risk ?a ?b] =>
              let x := fresh "x" in
              let Hx := fresh "Hx" in
              let Hn := fresh "Hn" in
              destruct (compute_reward_risk_ok a b) as (x & Hx & Hn);
              rewrite Hx
          end);
  ext_step.

Ltac ext_none :=
  repeat match goal with
         | |- _ /\ _ => split
         | |- _ -> _ => intros ?
         end;
  first [ reflexivity | discriminate
        | match goal with Hn : _ \/ _ -> ?x = None |- ?x = None =>
            apply Hn; first [left; reflexivity | right; reflexivity] end ].

Lemma tab1_after_shares (entry stop target invest comm : option Ext.float)
    (n : option Z) :
  (if Ext.truthy invest && Ext.truthy entry
   then Ext.safe_shares_from_investment invest entry
   else Ok None) = Ok n ->
  exists r,
    Ext.tab1_results entry stop target invest comm = Ok r /\
    Ext.shares r = n /\
    (Ext.truthy entry = false ->
     Ext.risk_per_share r = None /\ Ext.profit_per_share r = None /\
     Ext.rr_ratio r = None) /\
    (Ext.truthy stop = false ->
     Ext.risk_per_share r = None /\ Ext.adj_risk r = None /\
     Ext.total_risk r = None /\ Ext.rr_ratio r = None) /\
    (Ext.truthy target = false ->
     Ext.profit_per_share r = None /\ Ext.adj_profit r = None /\
     Ext.total_profit r = None /\ Ext.rr_ratio r = None) /\
    (n = None -> Ext.total_risk r = None /\ Ext.total_profit r = None).
Proof.
  intros Hs. destruct (tab1_shares_ok _ _ _ Hs) as [B _].
  unfold Ext.tab1_results. rewrite Hs. cbn [bind]. clear Hs.
  destruct n as [k|];
    [destruct (of_int_ok k (B k eq_refl)) as [f Hf]|]; clear B;
    destruct entry, stop, target, comm; ext_guards;
    (eexists; split; [reflexivity|]);
    cbn [Ext.shares Ext.risk_per_share Ext.profit_per_share Ext.adj_risk
         Ext.adj_profit Ext.total_risk Ext.total_profit Ext.rr_ratio];
    ext_none.
Qed.

(** The guard [if invest and entry] of tab 1 repeats the guard of
    [safe_shares_from_investment]. *)
Lemma tab1_shares_guard (invest entry : option Ext.float) :
  (if Ext.truthy invest && Ext.truthy entry
   then Ext.safe_shares_from_investment invest entry
   else Ok None)
  = Ext.safe_shares_from_investment invest entry.
Proof.
  unfold Ext.safe_shares_from_investment.
  destruct (Ext.truthy invest), (Ext.truthy entry); reflexivity.
Qed.

Lemma round_after_div (x y q : Ext.float) :
  Ext.div x y = Ok q -> exists v, Ext.round q 2 = Ok v.
Proof.
  intros Hq. destruct q as [a| | |]; try (eexists; reflexivity).
  unfold Ext.round.
  destruct (rnd_finite (Py.round a 2)) as [v ->]; [|eexists; reflexivity].
  apply round_bound. exact (div_bound _ _ _ Hq).
Qed.

Lemma compute_reward_risk_cases (p r : option Ext.float) :
  exists x,
    Ext.compute_reward_risk p r = Ok x /\
    match p, r with
    | Some a, Some b =>
        if Ext.is_zero b then x = None
        else exists q v,
            Ext.div a b = Ok q /\ Ext.round q 2 = Ok v /\ x = Some v
    | _, _ => x = None
    end.
Proof.
  unfold Ext.compute_reward_risk.
  destruct p as [a|], r as [b|];
    try (eexists; split; reflexivity).
  destruct (Ext.is_zero b) eqn:Z; [eexists; split; reflexivity|].
  destruct (div_nonzero_ok a b Z) as [q Hq]. rewrite Hq. cbn [bind].
  destruct (round_after_div _ _ _ Hq) as [v Hv]. rewrite Hv. cbn [bind].
  eexists. split; [reflexivity|]. exists q, v. repeat split. exact Hv.
Qed.

Lemma tab2_maxrisk_ok (risk_mode : Ext.RiskMode)
    (maxrisk capital2 pct : option Ext.float) :
  exists m,
    Ext.tab2_maxrisk risk_mode maxrisk capital2 pct = Ok m /\
    (risk_mode = Ext.PKR_absolute -> m = maxrisk).
Proof.
  unfold Ext.tab2_maxrisk. destruct risk_mode.
  - eexists. split; reflexivity.
  - destruct capital2 as [c|], pct as [p|]; cbn [Ext.truthy andb];
      try rewrite andb_false_r;
      try (eexists; split; [reflexivity | discriminate]).
    destruct (negb (Ext.is_zero c) && negb (Ext.is_zero p));
      [|eexists; split; [reflexivity | discriminate]].
    destruct (div_nonzero_ok p (Ext.Fin 100) eq_refl) as [q Hq].
    rewrite Hq. eexists. split; [reflexivity | discriminate].
Qed.

(** The share count of tab 2: when it raises, and what it is when not. *)
Lemma safe_shares_by_risk_raise (m e s : option Ext.float) (err : exn) :
  Ext.safe_shares_by_risk m e s = Raise err <->
  exists mm p st q,
    m = Some mm /\ e = Some p /\ s = Some st /\
    Ext.is_zero mm = false /\ Ext.is_zero p = false /\
    Ext.is_zero st = false /\
    Ext.le_zero (Ext.sub p st) = false /\
    Ext.div mm (Ext.sub p st) = Ok q /\
    (q = Ext.NaN /\ err = ValueError \/
     (q = Ext.PInf \/ q = Ext.NInf) /\ err = OverflowError).
Proof.
  unfold Ext.safe_shares_by_risk. split.
  - destruct (Ext.truthy m) eqn:Tm; [|discriminate].
    destruct (Ext.truthy e) eqn:Te; [|discriminate].
    destruct (Ext.truthy s) eqn:Ts; [|discriminate].
    destruct (truthy_Some_inv _ Tm) as (mm & -> & Zm).
    destruct (truthy_Some_inv _ Te) as (p & -> & Zp).
    destruct (truthy_Some_inv _ Ts) as (st & -> & Zs).
    cbn [negb orb Ext.sub_opt bind Ext.div_opt].
    destruct (Ext.le_zero (Ext.sub p st)) eqn:L; [discriminate|].
    destruct (div_nonzero_ok mm _ (le_zero_nonzero _ L)) as [q Hq].
    rewrite Hq. cbn [bind].
    pose proof (int_floor_cases q) as C.
    destruct q; rewrite C; cbn [bind]; intros [= <-];
      exists mm, p, st; eexists;
      repeat (split; [eassumption || reflexivity|]); auto.
  - intros (mm & p & st & q & -> & -> & -> & Zm & Zp & Zs & L & Hq & C).
    cbn [Ext.truthy]. rewrite Zm, Zp, Zs.
    cbn [negb orb Ext.sub_opt bind Ext.div_opt]. rewrite L, Hq.
    cbn [bind]. destruct C as [[-> ->]|[[->| ->] ->]]; reflexivity.
Qed.

Lemma safe_shares_by_risk_ok (m e s : option Ext.float)
    (n : option Z) (r : option Ext.float) :
  Ext.truthy e && Ext.truthy s && Ext.truthy m = true ->
  Ext.safe_shares_by_risk m e s = Ok (n, r) ->
  (exists k, n = Some k /\ Qabs (inject_Z k) <= inject_Z Ext.max_float) /\
  (exists v, r = Some v).
Proof.
  intros G. apply andb_prop in G. destruct G as [G Tm].
  apply andb_prop in G. destruct G as [Te Ts].
  unfold Ext.safe_shares_by_risk. rewrite Tm, Te, Ts.
  destruct (truthy_Some_inv _ Tm) as (mm & -> & Zm).
  destruct (truthy_Some_inv _ Te) as (p & -> & Zp).
  destruct (truthy_Some_inv _ Ts) as (st & -> & Zs).
  cbn [negb orb Ext.sub_opt bind Ext.div_opt].
  destruct (Ext.le_zero (Ext.sub p st)) eqn:L.
  - intros [= <- <-]. split; eexists; [split; [reflexivity|] | reflexivity].
    vm_compute. discriminate.
  - destruct (div_nonzero_ok mm _ (le_zero_nonzero _ L)) as [q Hq].
    rewrite Hq. cbn [bind].
    pose proof (int_floor_cases q) as C.
    destruct q as [a| | |]; rewrite C; cbn [bind]; intros [= <- <-].
    split; eexists; [split; [reflexivity|] | reflexivity].
    apply floor_bound. exact (div_bound _ _ _ Hq).
Qed.

Lemma tab2_after_shares (entry2 stop2 target2 maxrisk : option Ext.float)
    (n : option Z) (r : option Ext.float) :
  Ext.truthy entry2 && Ext.truthy stop2 && Ext.truthy maxrisk = true ->
  Ext.safe_shares_by_risk maxrisk entry2 stop2 = Ok (n, r) ->
  exists res,
    Ext.tab2_results entry2 stop2 target2 maxrisk = Ok (Some res) /\
    Ext.shares2 res = n /\ Ext.risk_per_share2 res = r.
Proof.
  intros G Hs.
  destruct (safe_shares_by_risk_ok _ _ _ _ _ G Hs) as [(k & -> & B) _].
  unfold Ext.tab2_results. rewrite G, Hs. cbn [bind fst snd]. clear Hs.
  apply andb_prop in G. destruct G as [G _].
  apply andb_prop in G. destruct G as [Te _].
  destruct (truthy_Some_inv _ Te) as (p & -> & Zp). clear Te.
  destruct (of_int_ok k B) as [f Hf]. clear B.
  destruct target2; ext_guards; try congruence;
    (eexists; split; [reflexivity|]); split; reflexivity.
Qed.

(** ** v2.1, run on fields that are not numbers *)

(** The fields 'inf' and 'nan' in tab 1, and a ratio on a rounded
    quotient: 43 / 40 is a little below 1.075 in binary64. *)
Example v21_tab1_run :
  Ext.tab1_results (Some (Ext.Fin 151)) None None (Some Ext.PInf) None
  = Raise OverflowError /\
  Ext.tab1_results (Some (Ext.Fin 151)) None None (Some Ext.NaN) None
  = Raise ValueError /\
  Ext.tab1_results (Some Ext.NaN) None None (Some (Ext.Fin 50000)) None
  = Raise ValueError /\
  (exists r,
     Ext.tab1_results (Some Ext.PInf) None None (Some (Ext.Fin 50000)) None
     = Ok r /\ Ext.shares r = Some 0%Z) /\
  (exists r,
     Ext.tab1_results (Some (Ext.Fin 100)) (Some (Ext.Fin 60))
       (Some (Ext.Fin 143)) (Some (Ext.Fin 50000)) None = Ok r /\
     Ext.shares r = Some 500%Z /\
     Ext.rr_ratio r = Some (Ext.Fin (Fl.fl64 1.07))) /\
  Ext.compute_reward_risk (Some (Ext.Fin 107)) (Some (Ext.Fin 40))
  = Ok (Some (Ext.Fin (Fl.fl64 2.67))).
Proof.
  repeat split; try (eexists; split; [vm_compute; reflexivity|]);
    vm_compute; repeat split; reflexivity.
Qed.

Example v21_tab2_run :
  Ext.tab2 Ext.PKR_absolute (Some (Ext.Fin 150)) (Some (Ext.Fin 140)) None
    (Some Ext.NaN) None None = Raise ValueError /\
  Ext.tab2 Ext.PKR_absolute (Some (Ext.Fin 150)) (Some (Ext.Fin 140)) None
    (Some Ext.PInf) None None = Raise OverflowError /\
  Ext.tab2 Ext.Pct_of_capital (Some (Ext.Fin 150)) (Some (Ext.Fin 140)) None
    None (Some Ext.PInf) (Some (Ext.Fin 2)) = Raise OverflowError /\
  (exists r,
     Ext.tab2 Ext.Pct_of_capital (Some (Ext.Fin 150)) (Some (Ext.Fin 140))
       (Some (Ext.Fin 180)) None (Some (Ext.Fin 100000)) (Some (Ext.Fin 2))
     = Ok (Some r) /\
     Ext.shares2 r = Some 200%Z /\
     Ext.risk_per_share2 r = Some (Ext.Fin 10) /\
     Ext.rr_ratio2 r = Some (Ext.Fin 3)).
Proof.
  repeat split; try (eexists; split; [vm_compute; reflexivity|]);
    vm_compute; repeat split; reflexivity.
Qed.

(** ** v2.1: what the tabs return, and when they fail *)

(** X11: tab 1 of v2.1 raises no [TypeError] and no [ZeroDivisionError],
    whatever the fields hold.  It raises exactly when the investment is
    given and not 0, the entry is given and not [<= 0] (NaN passes that
    test), and the quotient of investment by entry is NaN ([ValueError])
    or infinite ([OverflowError]): [int()] is the one operation that can
    fail.  When it returns, every figure that depends on a blank or zero
    field is left undefined: without an entry there are no shares, no
    per-share figures and no ratio; without a stop no risk figures and no
    ratio; without a target no profit figures and no ratio; without an
    investment no shares and no totals. *)
Theorem v21_tab1_blank_fields (entry stop target invest comm : option Ext.float) :
  (forall e,
     Ext.tab1_results entry stop target invest comm = Raise e <->
     exists i p q,
       invest = Some i /\ entry = Some p /\
       Ext.is_zero i = false /\ Ext.le_zero p = false /\
       Ext.div i p = Ok q /\
       (q = Ext.NaN /\ e = ValueError \/
        (q = Ext.PInf \/ q = Ext.NInf) /\ e = OverflowError)) /\
  (forall r,
     Ext.tab1_results entry stop target invest comm = Ok r ->
     (Ext.truthy entry = false ->
      Ext.shares r = None /\ Ext.risk_per_share r = None /\
      Ext.profit_per_share r = None /\ Ext.rr_ratio r = None) /\
     (Ext.truthy stop = false ->
      Ext.risk_per_share r = None /\ Ext.adj_risk r = None /\
      Ext.total_risk r = None /\ Ext.rr_ratio r = None) /\
     (Ext.truthy target = false ->
      Ext.profit_per_share r = None /\ Ext.adj_profit r = None /\
      Ext.total_profit r = None /\ Ext.rr_ratio r = None) /\
     (Ext.truthy invest = false ->
      Ext.shares r = None /\ Ext.total_risk r = None /\
      Ext.total_profit r = None)).
Proof.
  destruct (if Ext.truthy invest && Ext.truthy entry
            then Ext.safe_shares_from_investment invest entry
            else Ok None) as [n|err] eqn:Hs.
  - destruct (tab1_after_shares entry stop target invest comm n Hs)
      as (r & Hr & Sn & Fe & Fs & Ft & Fn).
    destruct (tab1_shares_ok _ _ _ Hs) as [_ N].
    rewrite Hr. split.
    + intros e. split; [discriminate|].
      intros H. apply tab1_shares_raise in H. rewrite Hs in H. discriminate H.
    + intros r' [= <-]. rewrite Sn.
      split; [|split; [|split]].
      * intros H. split; [apply N; now right | now apply Fe].
      * exact Fs.
      * exact Ft.
      * intros H. assert (E : n = None) by (apply N; now left).
        split; [exact E | now apply Fn].
  - assert (H : Ext.tab1_results entry stop target invest comm = Raise err)
      by (unfold Ext.tab1_results; rewrite Hs; reflexivity).
    rewrite H. split; [|discriminate].
    intros e. rewrite <- (tab1_shares_raise invest entry e), Hs.
    split; intros [= <-]; reflexivity.
Qed.

Lemma v21_tab1_blank_fields_witness :
  Ext.tab1_results (Some (Ext.Fin 151)) None (Some (Ext.Fin 180))
    (Some Ext.PInf) None = Raise OverflowError /\
  (forall r,
     Ext.tab1_results (Some (Ext.Fin 151)) None (Some (Ext.Fin 180))
       (Some (Ext.Fin 50000)) None = Ok r ->
     Ext.risk_per_share r = None /\ Ext.rr_ratio r = None).
Proof.
  split.
  - apply (proj1 (v21_tab1_blank_fields (Some (Ext.Fin 151)) None
                    (Some (Ext.Fin 180)) (Some Ext.PInf) None)).
    exists Ext.PInf, (Ext.Fin 151), Ext.PInf.
    repeat (split; [reflexivity|]). right. split; [left|]; reflexivity.
  - intros r E.
    destruct (proj2 (v21_tab1_blank_fields (Some (Ext.Fin 151)) None
                       (Some (Ext.Fin 180)) (Some (Ext.Fin 50000)) None) r E)
      as (_ & S & _).
    destruct (S eq_refl) as (A & _ & _ & B). split; assumption.
Defined.

(** X12: with entry, stop and target all given and non-zero, and once the
    share count is computed, tab 1 of v2.1 returns; it shows a ratio
    exactly when the computed risk per share, the computed profit per
    share and the computed risk per share plus commission are all not 0,
    and the ratio is then [round(q, 2)] of the float quotient [q] of
    reward minus commission by risk plus commission.  A stop equal to the
    entry counts as a missing risk: no adjusted risk and no total risk are
    computed, whatever the commission. *)
Theorem v21_tab1_ratio (e s t c0 : Ext.float) (invest comm : option Ext.float)
    (n : option Z) :
  Ext.is_zero e = false -> Ext.is_zero s = false -> Ext.is_zero t = false ->
  Ext.or_zero comm = Some c0 ->
  Ext.safe_shares_from_investment invest (Some e) = Ok n ->
  exists r,
    Ext.tab1_results (Some e) (Some s) (Some t) invest comm = Ok r /\
    Ext.shares r = n /\
    Ext.risk_per_share r = Some (Ext.sub e s) /\
    Ext.profit_per_share r = Some (Ext.sub t e) /\
    (Ext.is_zero (Ext.sub e s) = true ->
     Ext.adj_risk r = None /\ Ext.total_risk r = None) /\
    (Ext.rr_ratio r <> None <->
     Ext.is_zero (Ext.sub e s) = false /\
     Ext.is_zero (Ext.sub t e) = false /\
     Ext.is_zero (Ext.add (Ext.sub e s) c0) = false) /\
    (forall v, Ext.rr_ratio r = Some v ->
       exists q,
         Ext.div (Ext.sub (Ext.sub t e) c0) (Ext.add (Ext.sub e s) c0)
         = Ok q /\
         Ext.round q 2 = Ok v).
Proof.
  intros Ze Zs Zt Hc Hs. rewrite <- tab1_shares_guard in Hs.
  destruct (tab1_shares_ok _ _ _ Hs) as [B _].
  unfold Ext.tab1_results. rewrite Hs. cbn [bind Ext.truthy]. clear Hs.
  rewrite Ze, Zs, Zt. cbn [negb andb Ext.sub_opt bind Ext.truthy].
  destruct (compute_reward_risk_cases
              (if negb (Ext.is_zero (Ext.sub t e))
               then Some (Ext.sub (Ext.sub t e) c0) else None)
              (if negb (Ext.is_zero (Ext.sub e s))
               then Some (Ext.add (Ext.sub e s) c0) else None))
    as (x & Hx & Hcase).
  destruct n as [k|];
    [destruct (of_int_ok k (B k eq_refl)) as [f Hf]|]; clear B;
    destruct (Ext.is_zero (Ext.sub e s)) eqn:Zr;
    destruct (Ext.is_zero (Ext.sub t e)) eqn:Zp;
    cbn [negb] in Hx, Hcase;
    cbn [negb andb Ext.add_opt Ext.sub_opt bind Ext.truthy truthy_int];
    rewrite ?Hc;
    cbn [negb andb Ext.add_opt Ext.sub_opt bind Ext.truthy truthy_int];
    repeat match goal with
           | |- context [Ext.is_zero ?a] => destruct (Ext.is_zero a) eqn:?
           | |- context [Z.eqb ?a ?b] => destruct (Z.eqb a b) eqn:?
           end;
    cbn [negb andb Ext.mul_opt_int bind]; rewrite ?Hf; cbn [bind];
    rewrite Hx; cbn [bind];
    (eexists; split; [reflexivity|]);
    cbn [Ext.shares Ext.risk_per_share Ext.profit_per_share Ext.adj_risk
         Ext.total_risk Ext.rr_ratio];
    (split; [reflexivity|]); (split; [reflexivity|]);
    (split; [reflexivity|]);
    (split; [intros; first [discriminate | split; reflexivity]|]);
    try (destruct (Ext.is_zero (Ext.add (Ext.sub e s) c0)) eqn:Za);
    try (destruct Hcase as (q & v & Hq & Hv & ->));
    try subst x;
    (split;
     [ split; [ intros N; first [ now (exfalso; apply N)
                                | repeat split; reflexivity ]
              | intros (A1 & A2 & A3);
                first [discriminate A1 | discriminate A2 | discriminate A3
                      | discriminate] ]
     | intros v0 E0; first [ discriminate E0
                           | injection E0 as <-; eexists; split; eassumption ]
     ]).
Qed.

Lemma v21_tab1_ratio_witness :
  exists r,
    Ext.tab1_results (Some (Ext.Fin 100)) (Some (Ext.Fin 60))
      (Some (Ext.Fin 143)) (Some (Ext.Fin 50000)) None = Ok r /\
    Ext.shares r = Some 500%Z /\
    Ext.rr_ratio r <> None.
Proof.
  destruct (v21_tab1_ratio (Ext.Fin 100) (Ext.Fin 60) (Ext.Fin 143)
              (Ext.Fin 0) (Some (Ext.Fin 50000)) None (Some 500%Z))
    as (r & E & S & _ & _ & _ & R & _); try reflexivity.
  exists r. split; [exact E|]. split; [exact S|].
  apply R. repeat split; reflexivity.
Defined.

(** X13: tab 2 of v2.1 raises no [TypeError] and no [ZeroDivisionError],
    in either risk mode and whatever the fields hold.  It raises exactly
    when entry, stop and risk limit are given and not 0, the computed risk
    per share is not [<= 0], and the quotient of the limit by it is NaN
    ([ValueError]) or infinite ([OverflowError]).  Whenever it shows
    results, the share count and the risk per share are numbers, so the
    unguarded formatting of the risk per share cannot meet [None].
    Nothing is shown without an entry or a stop, nor in PKR mode without a
    risk limit. *)
Theorem v21_tab2_shown_numbers (risk_mode : Ext.RiskMode)
    (entry2 stop2 target2 maxrisk capital2 pct : option Ext.float) :
  (forall e,
     Ext.tab2 risk_mode entry2 stop2 target2 maxrisk capital2 pct = Raise e
     <->
     exists m p s q,
       Ext.tab2_maxrisk risk_mode maxrisk capital2 pct = Ok (Some m) /\
       entry2 = Some p /\ stop2 = Some s /\
       Ext.is_zero m = false /\ Ext.is_zero p = false /\
       Ext.is_zero s = false /\
       Ext.le_zero (Ext.sub p s) = false /\
       Ext.div m (Ext.sub p s) = Ok q /\
       (q = Ext.NaN /\ e = ValueError \/
        (q = Ext.PInf \/ q = Ext.NInf) /\ e = OverflowError)) /\
  (forall o,
     Ext.tab2 risk_mode entry2 stop2 target2 maxrisk capital2 pct = Ok o ->
     (forall r, o = Some r ->
        (exists n, Ext.shares2 r = Some n) /\
        (exists v, Ext.risk_per_share2 r = Some v)) /\
     (Ext.truthy entry2 = false \/ Ext.truthy stop2 = false -> o = None) /\
     (risk_mode = Ext.PKR_absolute -> Ext.truthy maxrisk = false ->
      o = None)).
Proof.
  unfold Ext.tab2.
  destruct (tab2_maxrisk_ok risk_mode maxrisk capital2 pct) as (m & Hm & Pm).
  rewrite Hm. cbn [bind].
  destruct (Ext.truthy entry2 && Ext.truthy stop2 && Ext.truthy m) eqn:G.
  - destruct (Ext.safe_shares_by_risk m entry2 stop2) as [[n r]|err] eqn:Hs.
    + destruct (tab2_after_shares _ _ target2 _ _ _ G Hs)
        as (res & Hr & Sn & Sr).
      destruct (safe_shares_by_risk_ok _ _ _ _ _ G Hs)
        as [(k & Hk & _) (v & Hv)].
      rewrite Hr. split.
      * intros e. split; [discriminate|].
        intros (mm & p & s & q & [= ->] & H).
        assert (X : Ext.safe_shares_by_risk (Some mm) entry2 stop2 = Raise e).
        { apply safe_shares_by_risk_raise. exists mm, p, s, q.
          split; [reflexivity | exact H]. }
        rewrite Hs in X. discriminate X.
      * intros o [= <-]. split; [|split].
        -- intros r' [= <-]. rewrite Sn, Sr, Hk, Hv.
           split; eexists; reflexivity.
        -- apply andb_prop in G. destruct G as [G _].
           apply andb_prop in G. destruct G as [Te Ts].
           rewrite Te, Ts. intros [H|H]; discriminate H.
        -- intros P T. rewrite (Pm P) in G. rewrite T in G.
           rewrite andb_false_r in G. discriminate G.
    + assert (H : Ext.tab2_results entry2 stop2 target2 m = Raise err)
        by (unfold Ext.tab2_results; rewrite G, Hs; reflexivity).
      rewrite H. split; [|discriminate].
      intros e. split.
      * intros [= <-]. apply safe_shares_by_risk_raise in Hs.
        destruct Hs as (mm & p & s & q & -> & Hrest).
        exists mm, p, s, q. split; [reflexivity | exact Hrest].
      * intros (mm & p & s & q & [= ->] & Hrest).
        assert (X : Ext.safe_shares_by_risk (Some mm) entry2 stop2 = Raise e).
        { apply safe_shares_by_risk_raise. exists mm, p, s, q.
          split; [reflexivity | exact Hrest]. }
        rewrite Hs in X. injection X as <-. reflexivity.
  - assert (H : Ext.tab2_results entry2 stop2 target2 m = Ok None)
      by (unfold Ext.tab2_results; rewrite G; reflexivity).
    rewrite H. split.
    + intros e. split; [discriminate|].
      intros (mm & p & s & q & [= ->] & -> & -> & Zm & Zp & Zs & _).
      cbn [Ext.truthy] in G. rewrite Zm, Zp, Zs in G. discriminate G.
    + intros o [= <-]. split; [discriminate|]. split; reflexivity.
Qed.

Lemma v21_tab2_shown_numbers_witness :
  Ext.tab2 Ext.PKR_absolute (Some (Ext.Fin 150)) (Some (Ext.Fin 140)) None
    (Some Ext.NaN) None None = Raise ValueError /\
  (forall o,
     Ext.tab2 Ext.PKR_absolute (Some (Ext.Fin 150)) (Some (Ext.Fin 140)) None
       None None None = Ok o ->
     o = None).
Proof.
  split.
  - apply (proj1 (v21_tab2_shown_numbers Ext.PKR_absolute
                    (Some (Ext.Fin 150)) (Some (Ext.Fin 140)) None
                    (Some Ext.NaN) None None)).
    exists Ext.NaN, (Ext.Fin 150), (Ext.Fin 140), Ext.NaN.
    repeat (split; [reflexivity|]). left. split; reflexivity.
  - intros o E.
    destruct (proj2 (v21_tab2_shown_numbers Ext.PKR_absolute
                       (Some (Ext.Fin 150)) (Some (Ext.Fin 140)) None
                       None None None) o E) as (_ & _ & N).
    apply N; reflexivity.
Defined.

(** ** v2.1 against v1.0 *)

(** X14: on inputs that are all given and non-zero, [safe_shares_by_risk]
    returns what [calc_shares_by_risk] returns, through any rounding.  For
    a positive investment and price with a quotient below [2^53],
    [safe_shares_from_investment], which floors the rounded quotient,
    returns the count of [calc_shares_from_investment], which floors
    exactly, or one more. *)
Theorem safe_agrees_with_calc (fl : Q -> Q) (m e s t : Q) :
  Rounding fl ->
  (~ m == 0 -> ~ e == 0 -> ~ s == 0 ->
   exists n r,
     Fl.calc_shares_by_risk fl m e s = Ok (n, r) /\
     Fl.safe_shares_by_risk fl (Some m) (Some e) (Some s)
     = Ok (Some n, Some r)) /\
  (0 < t -> 0 < e -> t / e <= inject_Z (2 ^ 53 - 1) ->
   exists n k,
     V1.calc_shares_from_investment t e = Ok n /\
     Fl.safe_shares_from_investment fl (Some t) (Some e) = Ok (Some k) /\
     (k = n \/ k = (n + 1)%Z)).
Proof.
  intros R. split.
  - intros Hm He Hs.
    unfold Fl.safe_shares_by_risk, Fl.calc_shares_by_risk.
    rewrite (truthy_Some _ Hm), (truthy_Some _ He), (truthy_Some _ Hs).
    cbn [negb orb Fl.sub_opt bind].
    destruct (Qle_bool (fl (e - s)) 0) eqn:L.
    + do 2 eexists. split; reflexivity.
    + cbn [Fl.div_opt]. destruct (Fl.div fl m (fl (e - s))) eqn:D.
      * cbn [bind]. do 2 eexists. split; reflexivity.
      * exfalso. apply Qle_bool_false_iff in L.
        rewrite (fl_div_nonzero _ _ _ (Qpos_nonzero _ L)) in D. discriminate.
  - intros Ht He Hq. do 2 eexists.
    split; [now apply calc_shares_from_investment_pos|].
    split; [apply fl_safe_shares_from_investment_pos;
            [now apply Qpos_nonzero | exact He]|].
    assert (Q0 : 0 <= t / e)
      by (apply Qdiv_nonneg; [now apply Qlt_le_weak | exact He]).
    destruct (rounded_floor_within fl _ R Q0 Hq) as [L U]. lia.
Qed.

Lemma safe_agrees_with_calc_witness :
  (exists n r,
     Fl.calc_shares_by_risk Fl.fl64 5000 150 160 = Ok (n, r) /\
     Fl.safe_shares_by_risk Fl.fl64 (Some 5000) (Some 150) (Some 160)
     = Ok (Some n, Some r)) /\
  (exists n k,
     V1.calc_shares_from_investment 1000 (Fl.fl64 1.6) = Ok n /\
     Fl.safe_shares_from_investment Fl.fl64 (Some 1000) (Some (Fl.fl64 1.6))
     = Ok (Some k) /\
     (k = n \/ k = (n + 1)%Z)).
Proof.
  destruct (safe_agrees_with_calc Fl.fl64 5000 150 160 1000 rounding_fl64)
    as [A _].
  destruct (safe_agrees_with_calc Fl.fl64 5000 (Fl.fl64 1.6) 160 1000
              rounding_fl64) as [_ B].
  split; [apply A; discriminate | apply B].
  - reflexivity.
  - vm_compute. reflexivity.
  - vm_compute. discriminate.
Defined.

(** ** The variants with fractional shares *)

Lemma gt_nonzero (x : Q) : gt x 0 = true -> eqf x 0 = false.
Proof.
  intros H. apply gt_true_iff in H. now apply eqf_false_iff, Qpos_nonzero.
Qed.

Lemma gt_false_iff (x y : Q) : gt x y = false <-> x <= y.
Proof.
  unfold gt. rewrite negb_false_iff. apply Qle_bool_iff.
Qed.

Lemma Qmult_pos (x y : Q) : 0 < x -> 0 < y -> 0 < x * y.
Proof.
  intros Hx Hy. rewrite <- (Qmult_0_l y). now apply Qmult_lt_compat_r.
Qed.

Lemma Qdiv_pos (x y : Q) : 0 < x -> 0 < y -> 0 < x / y.
Proof.
  intros Hx Hy. unfold Qdiv. apply Qmult_pos; [exact Hx|].
  now apply Qinv_lt_0_compat.
Qed.

Ltac nonzero_side :=
  repeat split; first [assumption | let E := fresh in intros E; lra].

(** X15: the investment tab of the dark-mode variant never fails.  With
    positive entry, stop and investment it invests the whole amount in
    fractional shares, its total risk is the investment minus the value of
    the shares at the stop, and its ratio is the quotient of the price
    distances, whatever the investment, when the stop is below the entry,
    and 0 when it is not. *)
Theorem kpi_tab1_spec (entry_price target_price stop_loss investment : Q) :
  (exists o,
     KPI.tab1_calculate entry_price target_price stop_loss investment = Ok o) /\
  (0 < entry_price -> 0 < stop_loss -> 0 < investment ->
   exists r,
     KPI.tab1_calculate entry_price target_price stop_loss investment
     = Ok (Some r) /\
     KPI.shares r * entry_price == investment /\
     KPI.total_risk r == investment - KPI.shares r * stop_loss /\
     (stop_loss < entry_price ->
      KPI.rr r == (target_price - entry_price) / (entry_price - stop_loss)) /\
     (entry_price <= stop_loss -> KPI.rr r = 0)).
Proof.
  assert (P : 0 < entry_price -> 0 < stop_loss -> 0 < investment ->
    exists r,
     KPI.tab1_calculate entry_price target_price stop_loss investment
     = Ok (Some r) /\
     KPI.shares r * entry_price == investment /\
     KPI.total_risk r == investment - KPI.shares r * stop_loss /\
     (stop_loss < entry_price ->
      KPI.rr r == (target_price - entry_price) / (entry_price - stop_loss)) /\
     (entry_price <= stop_loss -> KPI.rr r = 0)).
  { intros He Hs Hi. unfold KPI.tab1_calculate.
    rewrite !gt_pos by assumption. cbn [andb].
    pose proof (Qpos_nonzero _ He) as NZ.
    rewrite (div_nonzero _ _ NZ). cbn [bind].
    pose proof (Qdiv_pos _ _ Hi He) as Hq.
    destruct (gt ((entry_price - stop_loss) * (investment / entry_price)) 0)
      eqn:G.
    - apply gt_true_iff in G.
      rewrite (div_nonzero _ _ (Qpos_nonzero _ G)). cbn [bind].
      eexists. split; [reflexivity|].
      cbn [KPI.shares KPI.total_risk KPI.rr].
      assert (R : 0 < entry_price - stop_loss).
      { apply Qnot_le_lt. intros L.
        apply (Qlt_not_le _ _ G).
        setoid_replace ((entry_price - stop_loss) * (investment / entry_price))
          with (- ((stop_loss - entry_price) * (investment / entry_price)))
          by ring.
        assert (0 <= (stop_loss - entry_price) * (investment / entry_price)).
        { apply Qmult_le_0_compat; [lra | now apply Qlt_le_weak]. }
        lra. }
      split; [field; nonzero_side|]. split; [field; nonzero_side|]. split.
      + intros _. field. nonzero_side.
      + intros L. lra.
    - apply gt_false_iff in G. cbn [bind]. eexists. split; [reflexivity|].
      cbn [KPI.shares KPI.total_risk KPI.rr].
      split; [field; nonzero_side|]. split; [field; nonzero_side|]. split.
      + intros L. exfalso. apply (Qlt_not_le 0
          ((entry_price - stop_loss) * (investment / entry_price))); [|exact G].
        apply Qmult_pos; [lra | exact Hq].
      + reflexivity. }
  split; [|exact P].
  destruct (Qlt_le_dec 0 entry_price) as [He|He];
    [destruct (Qlt_le_dec 0 stop_loss) as [Hs|Hs];
     [destruct (Qlt_le_dec 0 investment) as [Hi|Hi]|]|].
  - destruct (P He Hs Hi) as (r & E & _). eexists. exact E.
  - unfold KPI.tab1_calculate. rewrite (proj2 (gt_false_iff investment 0) Hi).
    rewrite !andb_false_r. eexists. reflexivity.
  - unfold KPI.tab1_calculate. rewrite (proj2 (gt_false_iff stop_loss 0) Hs).
    rewrite !andb_false_r. eexists. reflexivity.
  - unfold KPI.tab1_calculate. rewrite (proj2 (gt_false_iff entry_price 0) He).
    eexists. reflexivity.
Qed.

(** X16: the sizing tab of the dark-mode variant never fails and shows
    exactly one of three outcomes: the request to fill all inputs unless
    entry, stop and risk limit are all positive, the stop-loss error when
    they are and the stop is not below the entry, and otherwise results in
    which the fractional share count uses the risk limit exactly and the
    ratio is the quotient of the price distances. *)
Theorem kpi_tab2_spec (entry2 stop2 target2 max_risk : Q) :
  exists o,
    KPI.tab2_calculate entry2 stop2 target2 max_risk = Ok o /\
    (o = KPI.FillAllInputs <->
     ~ (0 < entry2 /\ 0 < stop2 /\ 0 < max_risk)) /\
    (o = KPI.StopLossError <->
     0 < entry2 /\ 0 < stop2 /\ 0 < max_risk /\ entry2 <= stop2) /\
    (0 < entry2 -> 0 < stop2 -> 0 < max_risk -> stop2 < entry2 ->
     exists r,
       o = KPI.Results r /\
       KPI.shares_allowed r * (entry2 - stop2) == max_risk /\
       KPI.invest_req r == max_risk * entry2 / (entry2 - stop2) /\
       KPI.rr2 r == (target2 - entry2) / (entry2 - stop2)).
Proof.
  unfold KPI.tab2_calculate.
  destruct (gt entry2 0) eqn:Ge; [destruct (gt stop2 0) eqn:Gs;
    [destruct (gt max_risk 0) eqn:Gm|]|]; cbn [andb].
  - apply gt_true_iff in Ge, Gs. pose proof Gm as Gm'.
    apply gt_true_iff in Gm'.
    destruct (Qle_bool (entry2 - stop2) 0) eqn:L.
    + apply Qle_bool_iff in L. eexists. split; [reflexivity|].
      split; [split; [discriminate | tauto]|].
      split; [split; [intros _; repeat split; try assumption; lra
                     | reflexivity]|].
      intros _ _ _ H. exfalso. lra.
    + apply Qle_bool_false_iff in L.
      rewrite (div_nonzero _ _ (Qpos_nonzero _ L)). cbn [bind].
      rewrite (div_nonzero _ _ (Qpos_nonzero _ Gm')). cbn [bind].
      eexists. split; [reflexivity|].
      split; [split; [discriminate | tauto]|].
      split; [split; [discriminate | intros (_ & _ & _ & H); exfalso; lra]|].
      intros _ _ _ _. eexists. split; [reflexivity|].
      cbn [KPI.shares_allowed KPI.invest_req KPI.rr2].
      split; [field; nonzero_side|]. split; field; nonzero_side.
  - apply gt_false_iff in Gm. eexists. split; [reflexivity|].
    split; [split; [intros _ (_ & _ & H); lra | reflexivity]|].
    split; [split; [discriminate | intros (_ & _ & H & _); lra]|].
    intros _ _ H. exfalso. lra.
  - apply gt_false_iff in Gs. eexists. split; [reflexivity|].
    split; [split; [intros _ (_ & H & _); lra | reflexivity]|].
    split; [split; [discriminate | intros (_ & H & _); lra]|].
    intros _ H. exfalso. lra.
  - apply gt_false_iff in Ge. eexists. split; [reflexivity|].
    split; [split; [intros _ (H & _); lra | reflexivity]|].
    split; [split; [discriminate | intros (H & _); lra]|].
    intros H. exfalso. lra.
Qed.

(** X17: the sidebar edition never fails.  With the stop below the entry
    the position risks exactly the chosen percentage of the capital and
    the potential profit is the ratio times that risk; with the stop not
    below the entry the share count, ratio, total risk and profit are all
    0. *)
Theorem sidebar_spec (entry_price stop_loss target_price capital risk_percent : Q) :
  exists r,
    Sidebar.calculations entry_price stop_loss target_price capital
      risk_percent = Ok r /\
    (0 < entry_price - stop_loss ->
     Sidebar.total_risk r == capital * (risk_percent / 100) /\
     Sidebar.potential_profit r
     == Sidebar.reward_risk_ratio r * Sidebar.total_risk r) /\
    (entry_price - stop_loss <= 0 ->
     Sidebar.shares r = 0 /\ Sidebar.reward_risk_ratio r = 0 /\
     Sidebar.total_risk r == 0 /\ Sidebar.potential_profit r == 0).
Proof.
  unfold Sidebar.calculations.
  destruct (gt (entry_price - stop_loss) 0) eqn:G.
  - apply gt_true_iff in G.
    rewrite !(div_nonzero _ _ (Qpos_nonzero _ G)). cbn [bind].
    eexists. split; [reflexivity|].
    cbn [Sidebar.total_risk Sidebar.potential_profit
         Sidebar.reward_risk_ratio Sidebar.shares].
    split.
    + intros _. split; field; nonzero_side.
    + intros L. exfalso. lra.
  - apply gt_false_iff in G. cbn [bind]. eexists. split; [reflexivity|].
    cbn [Sidebar.total_risk Sidebar.potential_profit
         Sidebar.reward_risk_ratio Sidebar.shares].
    split.
    + intros P. exfalso. lra.
    + intros _. repeat split; ring.
Qed.

Lemma nonzero_true_iff (x : Q) : nonzero x = true <-> ~ x == 0.
Proof. unfold nonzero. rewrite negb_true_iff. apply eqf_false_iff. Qed.

Lemma nonzero_false_iff (x : Q) : nonzero x = false <-> x == 0.
Proof. unfold nonzero. rewrite negb_false_iff. apply eqf_true_iff. Qed.

Lemma eqf_comp (x y : Q) : x == y -> eqf x 0 = eqf y 0.
Proof. intros E. unfold eqf. now rewrite E. Qed.

(** X18: the long tab of the professional edition never fails.  With all
    four fields non-zero it invests the whole amount, and its ratio is the
    quotient of the price distances whenever stop and entry differ, also
    when the stop is above the entry, where it is sign-flipped; it is 0
    when stop and entry coincide. *)
Theorem pro_long_ratio (total_investment entry_price stop_loss target_price : Q) :
  (exists o,
     Pro.tab1_long total_investment entry_price stop_loss target_price = Ok o) /\
  (~ total_investment == 0 -> ~ entry_price == 0 -> ~ stop_loss == 0 ->
   ~ target_price == 0 ->
   exists r,
     Pro.tab1_long total_investment entry_price stop_loss target_price
     = Ok (Some r) /\
     Pro.shares r * entry_price == total_investment /\
     (~ entry_price == stop_loss ->
      Pro.reward_risk_ratio r
      == (target_price - entry_price) / (entry_price - stop_loss)) /\
     (entry_price == stop_loss -> Pro.reward_risk_ratio r = 0)).
Proof.
  assert (P : ~ total_investment == 0 -> ~ entry_price == 0 ->
    ~ stop_loss == 0 -> ~ target_price == 0 ->
    exists r,
     Pro.tab1_long total_investment entry_price stop_loss target_price
     = Ok (Some r) /\
     Pro.shares r * entry_price == total_investment /\
     (~ entry_price == stop_loss ->
      Pro.reward_risk_ratio r
      == (target_price - entry_price) / (entry_price - stop_loss)) /\
     (entry_price == stop_loss -> Pro.reward_risk_ratio r = 0)).
  { intros Hi He Hs Ht. unfold Pro.tab1_long.
    rewrite !(proj2 (nonzero_true_iff _)) by assumption. cbn [andb].
    rewrite (div_nonzero _ _ He). cbn [bind].
    destruct (eqf ((entry_price - stop_loss) * (total_investment / entry_price)) 0)
      eqn:Z.
    - apply eqf_true_iff in Z. cbn [negb bind].
      eexists. split; [reflexivity|]. cbn [Pro.shares Pro.reward_risk_ratio].
      assert (D : entry_price == stop_loss).
      { destruct (Qeq_dec entry_price stop_loss) as [D|D]; [exact D|].
        exfalso. apply (Qmult_integral _ _) in Z. destruct Z as [Z|Z].
        - apply D. lra.
        - apply Hi.
          setoid_replace total_investment
            with ((total_investment / entry_price) * entry_price)
            by (field; exact He).
          rewrite Z. ring. }
      split; [field; exact He|]. split; [intros N; contradiction|reflexivity].
    - apply eqf_false_iff in Z. cbn [negb].
      rewrite (div_nonzero _ _ Z). cbn [bind].
      eexists. split; [reflexivity|]. cbn [Pro.shares Pro.reward_risk_ratio].
      assert (D : ~ entry_price == stop_loss).
      { intros D. apply Z. rewrite D. ring. }
      split; [field; exact He|]. split.
      + intros _. field. repeat split; try assumption.
        intros E. apply D. lra.
      + intros E. contradiction. }
  split; [|exact P].
  destruct (Qeq_dec total_investment 0) as [Hi|Hi];
    [|destruct (Qeq_dec entry_price 0) as [He|He];
      [|destruct (Qeq_dec stop_loss 0) as [Hs|Hs];
        [|destruct (Qeq_dec target_price 0) as [Ht|Ht]]]].
  - unfold Pro.tab1_long. rewrite (proj2 (nonzero_false_iff _) Hi).
    eexists. reflexivity.
  - unfold Pro.tab1_long. rewrite (proj2 (nonzero_false_iff _) He).
    rewrite !andb_false_r. eexists. reflexivity.
  - unfold Pro.tab1_long. rewrite (proj2 (nonzero_false_iff _) Hs).
    rewrite !andb_false_r. eexists. reflexivity.
  - unfold Pro.tab1_long. rewrite (proj2 (nonzero_false_iff _) Ht).
    rewrite !andb_false_r. eexists. reflexivity.
  - destruct (P Hi He Hs Ht) as (r & E & _). eexists. exact E.
Qed.

(** X19: on the same four numbers, the short tab shows results exactly
    when the long tab does, with the same share count; its risk and reward
    per share and in total are those of the long tab negated, and its
    ratio is the same. *)
Theorem pro_short_mirrors_long
    (total_investment entry_price stop_loss target_price : Q) :
  match Pro.tab1_long total_investment entry_price stop_loss target_price,
        Pro.tab3_short total_investment entry_price stop_loss target_price
  with
  | Ok (Some l), Ok (Some h) =>
      Pro.shares h = Pro.shares l /\
      Pro.risk_per_share h == - Pro.risk_per_share l /\
      Pro.reward_per_share h == - Pro.reward_per_share l /\
      Pro.total_risk h == - Pro.total_risk l /\
      Pro.total_reward h == - Pro.total_reward l /\
      Pro.reward_risk_ratio h == Pro.reward_risk_ratio l
  | Ok None, Ok None => True
  | _, _ => False
  end.
Proof.
  unfold Pro.tab1_long, Pro.tab3_short.
  destruct (nonzero total_investment && nonzero entry_price
            && nonzero stop_loss && nonzero target_price) eqn:G;
    [|exact I].
  apply andb_prop in G. destruct G as [G _].
  apply andb_prop in G. destruct G as [G _].
  apply andb_prop in G. destruct G as [_ He].
  rewrite He. apply nonzero_true_iff in He.
  rewrite (div_nonzero _ _ He). cbn [bind].
  set (q := total_investment / entry_price).
  assert (N : (stop_loss - entry_price) * q == - ((entry_price - stop_loss) * q))
    by ring.
  rewrite (eqf_comp _ _ N).
  destruct (eqf ((entry_price - stop_loss) * q) 0) eqn:Z.
  - assert (Z' : eqf (- ((entry_price - stop_loss) * q)) 0 = true).
    { apply eqf_true_iff. apply eqf_true_iff in Z. rewrite Z. reflexivity. }
    rewrite Z'. cbn [negb bind].
    cbn [Pro.shares Pro.risk_per_share Pro.reward_per_share Pro.total_risk
         Pro.total_reward Pro.reward_risk_ratio].
    repeat split; ring.
  - assert (Z' : eqf (- ((entry_price - stop_loss) * q)) 0 = false).
    { apply eqf_false_iff. apply eqf_false_iff in Z. intros E. apply Z.
      rewrite <- (Qopp_involutive ((entry_price - stop_loss) * q)), E.
      reflexivity. }
    rewrite Z'. cbn [negb]. apply eqf_false_iff in Z.
    rewrite (div_nonzero _ _ Z).
    assert (Z2 : ~ (stop_loss - entry_price) * q == 0).
    { rewrite N. now apply eqf_false_iff. }
    rewrite (div_nonzero _ _ Z2). cbn [bind].
    cbn [Pro.shares Pro.risk_per_share Pro.reward_per_share Pro.total_risk
         Pro.total_reward Pro.reward_risk_ratio].
    split; [reflexivity|]. repeat split; try ring.
    assert (Hq : ~ q == 0) by (intros E; apply Z; rewrite E; ring).
    assert (Hd : ~ entry_price - stop_loss == 0)
      by (intros E; apply Z; rewrite E; ring).
    field. split; [exact Hq|]. split; [exact Hd|].
    intros E. apply Hd. lra.
Qed.

(** X20: the sizing tab of the professional edition never fails.  A
    non-zero risk in PKR takes precedence over the percentage of capital;
    with entry and stop non-zero and the stop below the entry the
    fractional share count uses the effective risk exactly and, for a
    positive effective risk, the ratio is the quotient of the price
    distances; with a field at 0 or the stop not below the entry the share
    count, profit and ratio are 0. *)
Theorem pro_sizing_spec
    (max_risk_pkr capital risk_percent entry_price2 stop_loss2 target_price2 : Q) :
  exists r,
    Pro.tab2_sizing max_risk_pkr capital risk_percent entry_price2 stop_loss2
      target_price2 = Ok r /\
    (~ max_risk_pkr == 0 -> Pro.effective_risk r = max_risk_pkr) /\
    (max_risk_pkr == 0 ->
     Pro.effective_risk r = capital * (risk_percent / 100)) /\
    (~ entry_price2 == 0 -> ~ stop_loss2 == 0 ->
     0 < entry_price2 - stop_loss2 ->
     Pro.shares_allowed r * (entry_price2 - stop_loss2)
     == Pro.effective_risk r /\
     (0 < Pro.effective_risk r ->
      Pro.reward_risk_ratio2 r
      == (target_price2 - entry_price2) / (entry_price2 - stop_loss2))) /\
    (entry_price2 == 0 \/ stop_loss2 == 0 \/ entry_price2 - stop_loss2 <= 0 ->
     Pro.shares_allowed r = 0 /\ Pro.potential_profit r = 0 /\
     Pro.reward_risk_ratio2 r == 0).
Proof.
  unfold Pro.tab2_sizing.
  set (eff := if nonzero max_risk_pkr then max_risk_pkr
              else capital * (risk_percent / 100)).
  assert (E1 : ~ max_risk_pkr == 0 -> eff = max_risk_pkr).
  { intros H. unfold eff. now rewrite (proj2 (nonzero_true_iff _) H). }
  assert (E2 : max_risk_pkr == 0 -> eff = capital * (risk_percent / 100)).
  { intros H. unfold eff. now rewrite (proj2 (nonzero_false_iff _) H). }
  set (rps := if nonzero entry_price2 && nonzero stop_loss2
              then entry_price2 - stop_loss2 else 0).
  assert (R1 : ~ entry_price2 == 0 -> ~ stop_loss2 == 0 ->
               rps = entry_price2 - stop_loss2).
  { intros A B. unfold rps.
    now rewrite (proj2 (nonzero_true_iff _) A), (proj2 (nonzero_true_iff _) B). }
  assert (R2 : entry_price2 == 0 \/ stop_loss2 == 0 \/
               entry_price2 - stop_loss2 <= 0 -> rps <= 0).
  { unfold rps. intros [A|[A|A]].
    - rewrite (proj2 (nonzero_false_iff _) A). apply Qle_refl.
    - rewrite (proj2 (nonzero_false_iff _) A), andb_false_r. apply Qle_refl.
    - destruct (nonzero entry_price2 && nonzero stop_loss2);
        [exact A | apply Qle_refl]. }
  clearbody eff rps.
  destruct (gt rps 0) eqn:G.
  - apply gt_true_iff in G. rewrite (div_nonzero _ _ (Qpos_nonzero _ G)).
    cbn [bind].
    destruct (gt eff 0) eqn:Ge.
    + apply gt_true_iff in Ge.
      rewrite (gt_pos _ (Qdiv_pos _ _ Ge G)).
      rewrite (div_nonzero _ _ (Qpos_nonzero _ Ge)). cbn [bind].
      eexists. split; [reflexivity|].
      cbn [Pro.effective_risk Pro.shares_allowed Pro.potential_profit
           Pro.reward_risk_ratio2].
      split; [exact E1|]. split; [exact E2|]. split.
      * intros A B P. rewrite <- (R1 A B). split.
        -- field. nonzero_side.
        -- intros _. field. nonzero_side.
      * intros H. exfalso. apply R2 in H. lra.
    + cbn [bind]. eexists. split; [reflexivity|].
      cbn [Pro.effective_risk Pro.shares_allowed Pro.potential_profit
           Pro.reward_risk_ratio2].
      split; [exact E1|]. split; [exact E2|]. split.
      * intros A B P. rewrite <- (R1 A B). split.
        -- field. nonzero_side.
        -- intros H. apply gt_true_iff in H. congruence.
      * intros H. exfalso. apply R2 in H. lra.
  - apply gt_false_iff in G. cbn [bind].
    assert (G0 : gt 0 0 = false) by reflexivity. rewrite G0.
    destruct (gt eff 0) eqn:Ge.
    + apply gt_true_iff in Ge.
      rewrite (div_nonzero _ _ (Qpos_nonzero _ Ge)). cbn [bind].
      eexists. split; [reflexivity|].
      cbn [Pro.effective_risk Pro.shares_allowed Pro.potential_profit
           Pro.reward_risk_ratio2].
      split; [exact E1|]. split; [exact E2|]. split.
      * intros A B P. exfalso. rewrite (R1 A B) in G. lra.
      * intros _. split; [reflexivity|]. split; [reflexivity|].
        field. nonzero_side.
    + cbn [bind]. eexists. split; [reflexivity|].
      cbn [Pro.effective_risk Pro.shares_allowed Pro.potential_profit
           Pro.reward_risk_ratio2].
      split; [exact E1|]. split; [exact E2|]. split.
      * intros A B P. exfalso. rewrite (R1 A B) in G. lra.
      * intros _. repeat split; reflexivity.
Qed.

(** ** The variants, run *)

Lemma kpi_tab1_spec_witness :
  exists r,
    KPI.tab1_calculate 150 180 140 50000 = Ok (Some r) /\
    KPI.shares r * 150 == 50000 /\
    KPI.rr r == (180 - 150) / (150 - 140).
Proof.
  destruct (kpi_tab1_spec 150 180 140 50000) as [_ P].
  destruct P as (r & E & A & _ & B & _); try reflexivity.
  exists r. split; [exact E|]. split; [exact A|]. apply B. reflexivity.
Defined.

Lemma kpi_tab2_spec_witness :
  exists r,
    KPI.tab2_calculate 150 140 180 5005 = Ok (KPI.Results r) /\
    KPI.shares_allowed r * (150 - 140) == 5005.
Proof.
  destruct (kpi_tab2_spec 150 140 180 5005) as (o & E & _ & _ & P).
  destruct P as (r & -> & A & _); try reflexivity.
  exists r. split; [exact E | exact A].
Defined.

Lemma sidebar_spec_witness :
  exists r,
    Sidebar.calculations 150 140 165 200000 2 = Ok r /\
    Sidebar.total_risk r == 200000 * (2 / 100).
Proof.
  destruct (sidebar_spec 150 140 165 200000 2) as (r & E & P & _).
  exists r. split; [exact E|]. apply P. reflexivity.
Defined.

Lemma pro_long_ratio_witness :
  exists r,
    Pro.tab1_long 50000 150 160 180 = Ok (Some r) /\
    Pro.reward_risk_ratio r == (180 - 150) / (150 - 160).
Proof.
  destruct (pro_long_ratio 50000 150 160 180) as [_ P].
  destruct P as (r & E & _ & A & _); try discriminate.
  exists r. split; [exact E|]. apply A. discriminate.
Defined.

Lemma pro_sizing_spec_witness :
  exists r,
    Pro.tab2_sizing 0 100000 2 150 140 180 = Ok r /\
    Pro.effective_risk r = 100000 * (2 / 100) /\
    Pro.shares_allowed r * (150 - 140) == Pro.effective_risk r.
Proof.
  destruct (pro_sizing_spec 0 100000 2 150 140 180) as (r & E & _ & A & B & _).
  exists r. split; [exact E|]. split; [apply A; reflexivity|].
  apply B; try discriminate. reflexivity.
Defined.

(** ** The themed variant against the dark-mode variant *)

(** X21: the themed variant and the dark-mode variant run the same sizing:
    on the same inputs both show results or both ask for inputs, with the
    same shares, risk, profit and investment, and the sizing tabs agree on
    every figure.  They differ only in the ratio of the investment tab
    when the stop is above the entry: the dark-mode variant shows 0, the
    themed variant the sign-flipped quotient of the price distances. *)
Theorem themed_agrees_with_dark_mode (entry target stop amount : Q) :
  match KPI.tab1_calculate entry target stop amount,
        Themed.tab1_calculate entry target stop amount with
  | Ok (Some k), Ok (Some h) =>
      Themed.num_shares h = KPI.shares k /\
      Themed.risk_per_share h = KPI.risk_share k /\
      Themed.total_risk h = KPI.total_risk k /\
      Themed.potential_profit h = KPI.profit k /\
      (stop <= entry -> Themed.rr_ratio h = KPI.rr k) /\
      (entry < stop ->
       KPI.rr k = 0 /\
       Themed.rr_ratio h == (target - entry) / (entry - stop))
  | Ok None, Ok None => True
  | _, _ => False
  end /\
  match KPI.tab2_calculate entry stop target amount,
        Themed.tab2_calculate entry stop target amount with
  | Ok (KPI.Results k), Ok (Themed.Results h) =>
      Themed.shares_allowed h = KPI.shares_allowed k /\
      Themed.investment_required h = KPI.invest_req k /\
      Themed.potential_profit2 h = KPI.profit2 k /\
      Themed.rr_ratio2 h = KPI.rr2 k
  | Ok KPI.StopLossError, Ok Themed.StopLossError => True
  | Ok KPI.FillAllInputs, Ok Themed.FillAllInputs => True
  | _, _ => False
  end.
Proof.
  split.
  - unfold KPI.tab1_calculate, Themed.tab1_calculate.
    destruct (gt entry 0 && gt stop 0 && gt amount 0) eqn:G; [|exact I].
    apply andb_prop in G. destruct G as [G Ha].
    apply andb_prop in G. destruct G as [He _].
    apply gt_true_iff in He, Ha. pose proof (Qpos_nonzero _ He) as NZ.
    rewrite (div_nonzero _ _ NZ). cbn [bind].
    pose proof (Qdiv_pos _ _ Ha He) as Hq.
    set (q := amount / entry) in *.
    destruct (gt ((entry - stop) * q) 0) eqn:P.
    + pose proof P as P'. apply gt_true_iff in P'.
      rewrite (gt_nonzero _ P). cbn [negb].
      rewrite (div_nonzero _ _ (Qpos_nonzero _ P')). cbn [bind].
      cbn [Themed.num_shares Themed.risk_per_share Themed.total_risk
           Themed.potential_profit Themed.rr_ratio KPI.shares KPI.risk_share
           KPI.total_risk KPI.profit KPI.rr].
      do 4 (split; [reflexivity|]). split.
      * intros _. reflexivity.
      * intros L. exfalso.
        assert (0 <= (stop - entry) * q)
          by (apply Qmult_le_0_compat; [lra | now apply Qlt_le_weak]).
        assert ((entry - stop) * q == - ((stop - entry) * q)) by ring.
        lra.
    + apply gt_false_iff in P.
      destruct (eqf ((entry - stop) * q) 0) eqn:Z; cbn [negb bind].
      * apply eqf_true_iff in Z.
        cbn [Themed.num_shares Themed.risk_per_share Themed.total_risk
             Themed.potential_profit Themed.rr_ratio KPI.shares
             KPI.risk_share KPI.total_risk KPI.profit KPI.rr].
        do 4 (split; [reflexivity|]). split.
        -- intros _. reflexivity.
        -- intros L. exfalso.
           apply Qmult_integral in Z. destruct Z as [Z|Z]; lra.
      * apply eqf_false_iff in Z. rewrite (div_nonzero _ _ Z). cbn [bind].
        cbn [Themed.num_shares Themed.risk_per_share Themed.total_risk
             Themed.potential_profit Themed.rr_ratio KPI.shares
             KPI.risk_share KPI.total_risk KPI.profit KPI.rr].
        assert (S : entry < stop).
        { apply Qnot_le_lt. intros L.
          assert (0 <= (entry - stop) * q)
            by (apply Qmult_le_0_compat; [lra | now apply Qlt_le_weak]).
          apply Z. lra. }
        do 4 (split; [reflexivity|]). split.
        -- intros L. exfalso. lra.
        -- intros _. split; [reflexivity|]. field. nonzero_side.
  - unfold KPI.tab2_calculate, Themed.tab2_calculate.
    destruct (gt entry 0 && gt stop 0 && gt amount 0) eqn:G; [|exact I].
    apply andb_prop in G. destruct G as [_ Ha].
    destruct (Qle_bool (entry - stop) 0) eqn:L; [exact I|].
    apply Qle_bool_false_iff in L.
    rewrite (div_nonzero _ _ (Qpos_nonzero _ L)). cbn [bind].
    rewrite Ha, (gt_nonzero _ Ha). cbn [negb].
    apply gt_true_iff in Ha.
    rewrite (div_nonzero _ _ (Qpos_nonzero _ Ha)). cbn [bind].
    repeat split.
Qed.
